(** * Strontium: a resilient request client

    Shallow embedding of the request engine of [@periodic/strontium] and of
    its resilience primitives: the error taxonomy, the per-request state
    machine, the circuit breaker, the backoff computation, the in-flight
    dedupe map, the metrics buffer, the idempotency registry and the
    orchestration in [StrontiumClient.request] / [_executeWithRetry].

    Conventions of the embedding:
    - JavaScript numbers that hold counters, HTTP statuses and millisecond
      clock readings are integers ([Z]); the backoff delay, which is scaled
      by a fractional jitter factor, is a rational ([Q]).
    - [throw] is a [Throws] completion that carries the state reached so
      far: mutations done before the throw persist, as in the source.
    - [Date.now()], [Math.random()], the transport and the identifier
      generators are read from an explicit world.
    - One request is run in isolation: the client state it starts from is
      arbitrary (it stands for whatever other requests left behind), but no
      other request interleaves at its suspension points.
    - Left out: the tracer ([startSpan] and [endSpan] swallow every error
      and touch no state of the engine) and the wiring of the caller's
      signal to the attempt's [AbortController], whose effect is what the
      world lets the transport call do. *)

From stdpp Require Import base strings gmap list.
From stdpp Require Import pretty.
From Stdlib Require Import ZArith QArith Qround Qminmax Qpower Lia Lqa.

Set Warnings "-register-all".

Local Open Scope Z_scope.

(* ===================================================================== *)
(** ** core/errors.ts                                                     *)
(* ===================================================================== *)

(** core/stateMachine.ts, [RequestState] (declared here because
    [DeterministicStateError] carries two of them). *)
Inductive RequestState :=
| IDLE | PENDING | RETRYING | SUCCESS | ERROR | CANCELLED.

#[global] Instance RequestState_eq_dec : EqDecision RequestState.
Proof. solve_decision. Defined.

(** The classes of core/errors.ts, plus the three kinds of foreign
    exception the engine tells apart with [instanceof] and [err.name]:
    an [AbortError], a [TypeError] and anything else. *)
Inductive JsError :=
| NetworkError (message : string)
| TimeoutError (timeoutMs : Z)
| RetryExhaustedError (attempts : Z) (lastError : option JsError)
| CircuitOpenError
| ResponseValidationError (message : string) (validationErrors : JsError)
| IntegrityViolationError (message : string)
| DeterministicStateError (from to : RequestState)
| AbortError
| TypeError (message : string)
| OtherError (message : string).

(** The stable [code] field of [StrontiumError]; foreign errors have none. *)
Definition code (e : JsError) : option string :=
  match e with
  | NetworkError _ => Some "NETWORK_ERROR"
  | TimeoutError _ => Some "TIMEOUT_ERROR"
  | RetryExhaustedError _ _ => Some "RETRY_EXHAUSTED"
  | CircuitOpenError => Some "CIRCUIT_OPEN"
  | ResponseValidationError _ _ => Some "RESPONSE_VALIDATION_ERROR"
  | IntegrityViolationError _ => Some "INTEGRITY_VIOLATION"
  | DeterministicStateError _ _ => Some "DETERMINISTIC_STATE_ERROR"
  | AbortError | TypeError _ | OtherError _ => None
  end.

(** [err instanceof X] tests used by the engine. *)
Definition isResponseValidationError (e : JsError) : bool :=
  match e with ResponseValidationError _ _ => true | _ => false end.
Definition isTimeoutError (e : JsError) : bool :=
  match e with TimeoutError _ => true | _ => false end.
Definition isAbortError (e : JsError) : bool :=
  match e with AbortError => true | _ => false end.
Definition isTypeError (e : JsError) : bool :=
  match e with TypeError _ => true | _ => false end.

(** How a call completes: normally with a value, or by throwing.  Both
    carry the state the call leaves behind. *)
Inductive Completion (S A : Type) :=
| Normal (a : A) (s : S)
| Throws (e : JsError) (s : S).
Arguments Normal {S A} a s.
Arguments Throws {S A} e s.

Definition stateOf {S A} (c : Completion S A) : S :=
  match c with Normal _ s => s | Throws _ s => s end.

Definition thrown {S A} (c : Completion S A) : option JsError :=
  match c with Normal _ _ => None | Throws e _ => Some e end.

(* ===================================================================== *)
(** ** core/stateMachine.ts                                               *)
(* ===================================================================== *)

Definition ALLOWED_TRANSITIONS (s : RequestState) : list RequestState :=
  match s with
  | IDLE => [PENDING; CANCELLED]
  | PENDING => [SUCCESS; ERROR; RETRYING; CANCELLED]
  | RETRYING => [PENDING; SUCCESS; ERROR; CANCELLED]
  | SUCCESS => []
  | ERROR => []
  | CANCELLED => []
  end.

(** [===] on two states. *)
Definition RequestState_eqb (a b : RequestState) : bool :=
  match a, b with
  | IDLE, IDLE | PENDING, PENDING | RETRYING, RETRYING
  | SUCCESS, SUCCESS | ERROR, ERROR | CANCELLED, CANCELLED => true
  | _, _ => false
  end.

(** [Array.prototype.includes] on a list of states. *)
Definition includes (l : list RequestState) (x : RequestState) : bool :=
  existsb (RequestState_eqb x) l.

(** The machine is its [state] field. *)
Definition StateMachine := RequestState.

Definition new_StateMachine : StateMachine := IDLE.

Definition transition (next : RequestState) (m : StateMachine)
  : Completion StateMachine unit :=
  let allowed := ALLOWED_TRANSITIONS m in
  if negb (includes allowed next)
  then Throws (DeterministicStateError m next) m
  else Normal tt next.

Definition isTerminal (m : StateMachine) : bool :=
  includes [SUCCESS; ERROR; CANCELLED] m.

(* ===================================================================== *)
(** ** resilience/circuitBreaker.ts                                       *)
(* ===================================================================== *)

Inductive CircuitState := CLOSED | OPEN | HALF_OPEN.

#[global] Instance CircuitState_eq_dec : EqDecision CircuitState.
Proof. solve_decision. Defined.

Record CircuitBreakerConfig := {
  failureThreshold : Z;
  resetTimeoutMs : Z;
  halfOpenMaxCalls : Z;
}.

Definition DEFAULT_CIRCUIT_BREAKER_CONFIG : CircuitBreakerConfig :=
  {| failureThreshold := 5; resetTimeoutMs := 60000; halfOpenMaxCalls := 1 |}.

(** [Partial<CircuitBreakerConfig>]: every field may be left out. *)
Record PartialCircuitBreakerConfig := {
  p_failureThreshold : option Z;
  p_resetTimeoutMs : option Z;
  p_halfOpenMaxCalls : option Z;
}.

Definition emptyBreakerConfig : PartialCircuitBreakerConfig :=
  {| p_failureThreshold := None; p_resetTimeoutMs := None;
     p_halfOpenMaxCalls := None |}.

(** [{ ...DEFAULT_CIRCUIT_BREAKER_CONFIG, ...config }] *)
Definition mergeBreakerConfig (p : PartialCircuitBreakerConfig)
  : CircuitBreakerConfig :=
  {| failureThreshold :=
       default (failureThreshold DEFAULT_CIRCUIT_BREAKER_CONFIG)
               (p_failureThreshold p);
     resetTimeoutMs :=
       default (resetTimeoutMs DEFAULT_CIRCUIT_BREAKER_CONFIG)
               (p_resetTimeoutMs p);
     halfOpenMaxCalls :=
       default (halfOpenMaxCalls DEFAULT_CIRCUIT_BREAKER_CONFIG)
               (p_halfOpenMaxCalls p) |}.

Record CircuitBreaker := {
  cb_state : CircuitState;
  failures : Z;
  halfOpenCalls : Z;
  lastOpenedAt : Z;
  cb_config : CircuitBreakerConfig;
}.

Definition new_CircuitBreaker (p : PartialCircuitBreakerConfig) : CircuitBreaker :=
  {| cb_state := CLOSED; failures := 0; halfOpenCalls := 0; lastOpenedAt := 0;
     cb_config := mergeBreakerConfig p |}.


Definition set_cb_state (s : CircuitState) (b : CircuitBreaker) : CircuitBreaker :=
  {| cb_state := s; failures := failures b; halfOpenCalls := halfOpenCalls b;
     lastOpenedAt := lastOpenedAt b; cb_config := cb_config b |}.
Definition set_failures (n : Z) (b : CircuitBreaker) : CircuitBreaker :=
  {| cb_state := cb_state b; failures := n; halfOpenCalls := halfOpenCalls b;
     lastOpenedAt := lastOpenedAt b; cb_config := cb_config b |}.
Definition set_halfOpenCalls (n : Z) (b : CircuitBreaker) : CircuitBreaker :=
  {| cb_state := cb_state b; failures := failures b; halfOpenCalls := n;
     lastOpenedAt := lastOpenedAt b; cb_config := cb_config b |}.
Definition set_lastOpenedAt (t : Z) (b : CircuitBreaker) : CircuitBreaker :=
  {| cb_state := cb_state b; failures := failures b;
     halfOpenCalls := halfOpenCalls b; lastOpenedAt := t;
     cb_config := cb_config b |}.

(** First [if] of [check]: an OPEN breaker whose reset timeout has elapsed
    becomes HALF_OPEN with a fresh probe counter; otherwise it rejects. *)
Definition check_open (now : Z) (b : CircuitBreaker)
  : Completion CircuitBreaker unit :=
  if bool_decide (cb_state b = OPEN) then
    let elapsed := now - lastOpenedAt b in
    if resetTimeoutMs (cb_config b) <=? elapsed
    then Normal tt (set_halfOpenCalls 0 (set_cb_state HALF_OPEN b))
    else Throws CircuitOpenError b
  else Normal tt b.

(** Second [if] of [check]: a HALF_OPEN breaker lets through at most
    [halfOpenMaxCalls] probes. *)
Definition check_half_open (b : CircuitBreaker)
  : Completion CircuitBreaker unit :=
  if bool_decide (cb_state b = HALF_OPEN) then
    if halfOpenMaxCalls (cb_config b) <=? halfOpenCalls b
    then Throws CircuitOpenError b
    else Normal tt (set_halfOpenCalls (halfOpenCalls b + 1) b)
  else Normal tt b.

(** [now] is the reading of [Date.now()] inside the call. *)
Definition check (now : Z) (b : CircuitBreaker) : Completion CircuitBreaker unit :=
  match check_open now b with
  | Throws e b' => Throws e b'
  | Normal _ b' => check_half_open b'
  end.

Definition recordSuccess (b : CircuitBreaker) : CircuitBreaker :=
  if bool_decide (cb_state b = HALF_OPEN) then
    set_failures 0 (set_cb_state CLOSED b)
  else if bool_decide (cb_state b = CLOSED) then
    set_failures 0 b
  else b.

Definition recordFailure (now : Z) (b : CircuitBreaker) : CircuitBreaker :=
  let b1 := set_failures (failures b + 1) b in
  if bool_decide (cb_state b1 = HALF_OPEN) then
    set_lastOpenedAt now (set_cb_state OPEN b1)
  else if failureThreshold (cb_config b1) <=? failures b1 then
    set_lastOpenedAt now (set_cb_state OPEN b1)
  else b1.

(** [recordFailure] called once per clock reading of [nows], in order. *)
Definition recordFailures (nows : list Z) (b : CircuitBreaker) : CircuitBreaker :=
  foldl (fun acc now => recordFailure now acc) b nows.

(* ===================================================================== *)
(** ** resilience/retry.ts                                                *)
(* ===================================================================== *)

(** ['fixed' | 'exponential' | 'linear' | ((attempt, baseDelayMs) => number)] *)
Inductive RetryStrategy :=
| fixed
| exponential
| linear
| custom (f : Z -> Q -> Q).

(** Members of [retryOn]: ['network' | '5xx' | number]. *)
Inductive RetryCondition :=
| network
| fiveXX
| onStatus (n : Z).

Record RetryConfig := {
  enabled : bool;
  maxAttempts : Z;
  strategy : RetryStrategy;
  baseDelayMs : Q;
  maxDelayMs : Q;
  jitter : bool;
  retryOn : list RetryCondition;
}.

Definition DEFAULT_RETRY_CONFIG : RetryConfig :=
  {| enabled := true;
     maxAttempts := 3;
     strategy := exponential;
     baseDelayMs := 100 # 1;
     maxDelayMs := 30000 # 1;
     jitter := true;
     retryOn := [network; fiveXX] |}.

(** [Partial<RetryConfig>] *)
Record PartialRetryConfig := {
  p_enabled : option bool;
  p_maxAttempts : option Z;
  p_strategy : option RetryStrategy;
  p_baseDelayMs : option Q;
  p_maxDelayMs : option Q;
  p_jitter : option bool;
  p_retryOn : option (list RetryCondition);
}.

Definition emptyRetryConfig : PartialRetryConfig :=
  {| p_enabled := None; p_maxAttempts := None; p_strategy := None;
     p_baseDelayMs := None; p_maxDelayMs := None; p_jitter := None;
     p_retryOn := None |}.

(** [{ ...DEFAULT_RETRY_CONFIG, ...config.retry }] *)
Definition mergeRetryConfig (p : PartialRetryConfig) : RetryConfig :=
  {| enabled := default (enabled DEFAULT_RETRY_CONFIG) (p_enabled p);
     maxAttempts := default (maxAttempts DEFAULT_RETRY_CONFIG) (p_maxAttempts p);
     strategy := default (strategy DEFAULT_RETRY_CONFIG) (p_strategy p);
     baseDelayMs := default (baseDelayMs DEFAULT_RETRY_CONFIG) (p_baseDelayMs p);
     maxDelayMs := default (maxDelayMs DEFAULT_RETRY_CONFIG) (p_maxDelayMs p);
     jitter := default (jitter DEFAULT_RETRY_CONFIG) (p_jitter p);
     retryOn := default (retryOn DEFAULT_RETRY_CONFIG) (p_retryOn p) |}.

(** The delay before clamping, one branch per strategy. *)
Definition rawDelay (strategy : RetryStrategy) (attempt : Z) (baseDelayMs : Q) : Q :=
  match strategy with
  | custom f => f attempt baseDelayMs
  | fixed => baseDelayMs
  | linear => (baseDelayMs * inject_Z attempt)%Q
  | exponential => (baseDelayMs * (2 # 1) ^ (attempt - 1)%Z)%Q
  end.

(** [0.5 + Math.random() * 0.5] *)
Definition jitterFactor (random : Q) : Q := ((1 # 2) + random * (1 # 2))%Q.

(** [random] is the value [Math.random()] returns; it is read only when
    [jitter] is set. *)
Definition computeDelay (strategy : RetryStrategy) (attempt : Z)
    (baseDelayMs maxDelayMs : Q) (jitter : bool) (random : Q) : Z :=
  let delay := rawDelay strategy attempt baseDelayMs in
  let delay := Qmin delay maxDelayMs in
  let delay := if jitter then (delay * jitterFactor random)%Q else delay in
  Qfloor delay.

Definition matchesCondition (statusCode : option Z) (condition : RetryCondition) : bool :=
  match condition, statusCode with
  | network, None => true
  | fiveXX, Some s => 500 <=? s
  | onStatus n, Some s => bool_decide (s = n)
  | _, _ => false
  end.

Definition shouldRetry (config : RetryConfig) (_error : option JsError)
    (statusCode : option Z) (attempt : Z) : bool :=
  if negb (enabled config) then false
  else if maxAttempts config <=? attempt then false
  else existsb (matchesCondition statusCode) (retryOn config).

(** The delay [backoff] sleeps for. *)
Definition backoffDelay (config : RetryConfig) (attempt : Z) (random : Q) : Z :=
  computeDelay (strategy config) attempt (baseDelayMs config)
               (maxDelayMs config) (jitter config) random.

(* ===================================================================== *)
(** ** resilience/dedupe.ts                                               *)
(* ===================================================================== *)

Definition MAX_DEDUPE_MAP_SIZE : Z := 1000.

(** The identity of a promise object. *)
Definition PromiseId := nat.

(** A JavaScript [Map] keeps insertion order, which [set] relies on to
    evict the oldest entry: an association list, oldest first, with at
    most one entry per key. *)
Definition DedupeMap := list (string * PromiseId).

Definition new_DedupeMap : DedupeMap := [].

Fixpoint Map_get (key : string) (m : DedupeMap) : option PromiseId :=
  match m with
  | [] => None
  | (k, p) :: rest => if bool_decide (k = key) then Some p else Map_get key rest
  end.

Definition Map_delete (key : string) (m : DedupeMap) : DedupeMap :=
  filter (fun kv => kv.1 ≠ key) m.

(** [Map.prototype.set]: an existing key keeps its place. *)
Fixpoint Map_set (key : string) (p : PromiseId) (m : DedupeMap) : DedupeMap :=
  match m with
  | [] => [(key, p)]
  | (k, q) :: rest =>
      if bool_decide (k = key) then (k, p) :: rest
      else (k, q) :: Map_set key p rest
  end.

Definition dedupe_get (key : string) (m : DedupeMap) : option PromiseId :=
  Map_get key m.

(** [if (firstKey) ...]: the empty string is falsy. *)
Definition truthy (s : string) : bool :=
  match s with EmptyString => false | _ => true end.

Definition dedupe_set (key : string) (promise : PromiseId) (m : DedupeMap)
  : DedupeMap :=
  let m1 :=
    if MAX_DEDUPE_MAP_SIZE <=? Z.of_nat (length m) then
      match m with
      | (firstKey, _) :: _ =>
          if truthy firstKey then Map_delete firstKey m else m
      | [] => m
      end
    else m in
  Map_set key promise m1.

(** The two callbacks [set] attaches with [promise.then]: when the
    promise settles, either way, the key is deleted. *)
Definition dedupe_settled (key : string) (m : DedupeMap) : DedupeMap :=
  Map_delete key m.

Definition dedupe_size (m : DedupeMap) : Z := Z.of_nat (length m).

(* ===================================================================== *)
(** ** observability/instrumentation.ts                                   *)
(* ===================================================================== *)

Record MetricsSample := {
  ms_requestId : string;
  ms_url : string;
  ms_method : string;
  ms_latencyMs : Z;
  ms_attempt : Z;
  ms_status : option Z;
  ms_success : bool;
}.

(** The [samples] array, oldest first. *)
Definition Metrics := list MetricsSample.

Definition new_Metrics : Metrics := [].

Definition maxSamples : Z := 1000.

Definition metrics_record (sample : MetricsSample) (samples : Metrics) : Metrics :=
  let samples :=
    if maxSamples <=? Z.of_nat (length samples) then tail samples else samples in
  samples ++ [sample].

Definition averageLatency (samples : Metrics) : Q :=
  if bool_decide (length samples = 0%nat) then 0%Q
  else
    let sum := foldl (fun acc s => acc + ms_latencyMs s) 0 samples in
    (inject_Z sum / inject_Z (Z.of_nat (length samples)))%Q.

(** [now] is the reading of [Date.now()] that fixes the cutoff and
    [nowAt i] the reading taken in the filter callback of the sample at
    index [i] (taken only when that sample is a failure). *)
Definition recentFailures (now : Z) (nowAt : nat -> Z) (windowMs : Z)
    (samples : Metrics) : Z :=
  let cutoff := now - windowMs in
  Z.of_nat (length (filter (fun b : bool => b = true)
    (imap (fun i s => negb (ms_success s) && (cutoff <? nowAt i - ms_latencyMs s))
          samples))).

(** [recentFailures()] with its default window. *)
Definition recentFailures_default (now : Z) (nowAt : nat -> Z) (samples : Metrics) : Z :=
  recentFailures now nowAt 60000 samples.

(* ===================================================================== *)
(** ** The JavaScript runtime                                             *)
(* ===================================================================== *)

(** What the code takes from its runtime and the embedding does not look
    into: the values a body or a decoded response can be, their JSON text
    and the hexadecimal SHA-256 digest of a string ([crypto.subtle] or
    Node's [crypto]). *)
Class Runtime := {
  JsValue : Type;
  JSON_stringify : JsValue -> string;
  sha256 : string -> string;
}.

(** The result of a call that may throw, or of a promise that settles. *)
Inductive Result (A : Type) :=
| Ok (a : A)
| Err (e : JsError).
Arguments Ok {A} a.
Arguments Err {A} e.

(** How a promise fares against the timer [withTimeout] arms next to it:
    it settles first, or the timer fires first. *)
Inductive Pending (A : Type) :=
| SettlesFirst (r : Result A)
| TimerFirst.
Arguments SettlesFirst {A} r.
Arguments TimerFirst {A}.

(** resilience/timeout.ts.  One branch per callback: the timer
    ([controller.abort()], reject with a [TimeoutError]), the fulfilment
    handler and the rejection handler. *)
Definition withTimeout {A} (promise : Pending A) (timeoutMs : Z) : Result A :=
  match promise with
  | TimerFirst => Err (TimeoutError timeoutMs)
  | SettlesFirst (Ok value) => Ok value
  | SettlesFirst (Err err) => Err err
  end.

(** [String.prototype.includes] *)
Fixpoint String_includes (needle s : string) : bool :=
  String.prefix needle s
  || match s with
     | EmptyString => false
     | String _ rest => String_includes needle rest
     end.

Definition dquote : string :=
  String (Ascii.Ascii false true false false false true false false) EmptyString.

Section Engine.
Context `{RT : Runtime}.

(* ===================================================================== *)
(** ** protocol/payloadHash.ts, protocol/headers.ts                       *)
(* ===================================================================== *)

(** The text that is hashed: [body === undefined ? '' : JSON.stringify(body)],
    with [None] for [undefined]. *)
Definition serialized (body : option JsValue) : string :=
  match body with None => EmptyString | Some b => JSON_stringify b end.

Definition computePayloadHash (body : option JsValue) : string :=
  sha256 (serialized body).

(** The module-level [idempotencyKeyHashes] map is the state. *)
Definition enforceIntegrity (idempotencyKey : string) (body : option JsValue)
    (idempotencyKeyHashes : gmap string string)
  : Completion (gmap string string) string :=
  let hash := computePayloadHash body in
  let existing := idempotencyKeyHashes !! idempotencyKey in
  if bool_decide (existing ≠ None ∧ existing ≠ Some hash) then
    Throws (IntegrityViolationError
              ("Idempotency key " +:+ dquote +:+ idempotencyKey +:+ dquote
               +:+ " was already used with a different payload."))
           idempotencyKeyHashes
  else Normal hash (<[idempotencyKey := hash]> idempotencyKeyHashes).

Definition computeDedupeKey (method url bodyHash : string) : string :=
  method +:+ ":" +:+ url +:+ ":" +:+ bodyHash.

(** A [Headers] object holds one value per (lower-case) name, so
    [headersToRecord] copies it entry by entry. *)
Definition headersToRecord (headers : gmap string string) : gmap string string :=
  headers.

(* ===================================================================== *)
(** ** core/types.ts                                                      *)
(* ===================================================================== *)

Inductive HttpMethod := GET | POST | PUT | PATCH | DELETE | HEAD | OPTIONS.

#[global] Instance HttpMethod_eq_dec : EqDecision HttpMethod.
Proof. solve_decision. Defined.

(** The string a method is at run time. *)
Definition methodName (m : HttpMethod) : string :=
  match m with
  | GET => "GET" | POST => "POST" | PUT => "PUT" | PATCH => "PATCH"
  | DELETE => "DELETE" | HEAD => "HEAD" | OPTIONS => "OPTIONS"
  end.

Inductive ProtocolMode := standard | idempotent.
Inductive ClientMode := strict | performance.

#[global] Instance ProtocolMode_eq_dec : EqDecision ProtocolMode.
Proof. solve_decision. Defined.
#[global] Instance ClientMode_eq_dec : EqDecision ClientMode.
Proof. solve_decision. Defined.

(** [Validator<T>]: [parse] returns the parsed value or throws. *)
Definition Validator := JsValue -> Result JsValue.

(** The part of a fetch [Response] the engine reads. *)
Record Response := {
  status : Z;
  ok : bool;
  resp_headers : gmap string string;
  json : Result JsValue;
  text : Result JsValue;
}.

(** The arguments of a transport call. *)
Record TransportRequest := {
  tr_url : string;
  tr_method : string;
  tr_headers : gmap string string;
  tr_body : option string;
}.

(** A transport function.  A JavaScript function may answer differently
    from call to call: the first argument is the attempt it is called in. *)
Definition Transport := Z -> TransportRequest -> Pending Response.

Record StrontiumClientConfig := {
  cfg_baseURL : string;
  cfg_retry : option PartialRetryConfig;
  cfg_circuitBreaker : option PartialCircuitBreakerConfig;
  cfg_timeoutMs : option Z;
  cfg_dedupe : option bool;
  cfg_protocolMode : option ProtocolMode;
  cfg_mode : option ClientMode;
  cfg_transport : option Transport;
  cfg_headers : option (gmap string string);
}.

(** [Required<StrontiumClientConfig>], as the constructor fills it. *)
Record RequiredConfig := {
  baseURL : string;
  retry : RetryConfig;
  circuitBreakerConfig : PartialCircuitBreakerConfig;
  timeoutMs : Z;
  dedupe : bool;
  protocolMode : ProtocolMode;
  mode : ClientMode;
  transport : Transport;
  headers : gmap string string;
}.

Record RequestOptions := {
  o_method : HttpMethod;
  o_url : string;
  o_body : option JsValue;
  o_headers : option (gmap string string);
  o_schema : option Validator;
  o_signal : bool;
  o_idempotencyKey : option string;
  o_timeoutMs : option Z;
}.

Record StrontiumResponse := {
  data : JsValue;
  r_status : Z;
  r_headers : gmap string string;
  r_requestId : string;
  r_attempt : Z;
  r_latencyMs : Z;
}.

Inductive HookName :=
| onBeforeRequest | onAfterResponse | onRetry
| onCircuitOpen | onError | onCancel.

#[global] Instance HookName_eq_dec : EqDecision HookName.
Proof. solve_decision. Defined.

(* ===================================================================== *)
(** ** The world of one request                                           *)
(* ===================================================================== *)

(** What one attempt reads from outside the engine. *)
Record AttemptWorld := {
  now_check : Z;        (* Date.now() inside circuitBreaker.check() *)
  now_start : Z;        (* startTime *)
  now_settled : Z;      (* Date.now() after the awaited transport call *)
  now_caught : Z;       (* Date.now() in the catch block *)
  now_failure : Z;      (* Date.now() inside circuitBreaker.recordFailure() *)
  random : Q;           (* Math.random() inside backoff *)
  idempotencyKey_gen : string;   (* generateIdempotencyKey() *)
  signal_aborted : bool;         (* options.signal.aborted, read in the catch *)
}.

Record World := {
  fetch : Transport;             (* the global fetch *)
  requestId_gen : string;        (* generateRequestId() *)
  promise_gen : PromiseId;       (* the promise _executeWithRetry returns *)
  attemptWorld : Z -> AttemptWorld;
}.

(** transport/fetchTransport.ts *)
Definition defaultTransport (w : World) : Transport :=
  fun call req => fetch w call req.

(* ===================================================================== *)
(** ** requestEngine.ts: the client and its state                         *)
(* ===================================================================== *)

Definition MAX_CONCURRENT_REQUESTS : Z := 100.

(** The read-only fields of [StrontiumClient]. *)
Record StrontiumClient := {
  config : RequiredConfig;
  retryConfig : RetryConfig;
}.

(** The calls of a request, in the order they happen.  The log is ghost
    state: the engine never reads it. *)
Inductive Event :=
| EvTransition (next : RequestState)
| EvHook (hook : HookName) (attempt : Z)
| EvCheck
| EvRecordSuccess
| EvRecordFailure
| EvFetch (attempt : Z) (req : TransportRequest) (timeoutMs : Z)
| EvMetrics (sample : MetricsSample)
| EvBackoff (delay : Z).

(** The mutable state a request runs on: the client's fields, the
    module-level idempotency map, and the locals of [_executeWithRetry]
    that outlive a single statement. *)
Record Engine := {
  circuitBreaker : CircuitBreaker;
  dedupeMap : DedupeMap;
  metrics : Metrics;
  inFlight : Z;
  idempotencyKeyHashes : gmap string string;
  machine : StateMachine;
  lastError : option JsError;
  statusCode : option Z;
  trace : list Event;
}.

Definition set_circuitBreaker (b : CircuitBreaker) (st : Engine) : Engine :=
  {| circuitBreaker := b; dedupeMap := dedupeMap st; metrics := metrics st;
     inFlight := inFlight st; idempotencyKeyHashes := idempotencyKeyHashes st;
     machine := machine st; lastError := lastError st;
     statusCode := statusCode st; trace := trace st |}.
Definition set_dedupeMap (m : DedupeMap) (st : Engine) : Engine :=
  {| circuitBreaker := circuitBreaker st; dedupeMap := m; metrics := metrics st;
     inFlight := inFlight st; idempotencyKeyHashes := idempotencyKeyHashes st;
     machine := machine st; lastError := lastError st;
     statusCode := statusCode st; trace := trace st |}.
Definition set_metrics (m : Metrics) (st : Engine) : Engine :=
  {| circuitBreaker := circuitBreaker st; dedupeMap := dedupeMap st; metrics := m;
     inFlight := inFlight st; idempotencyKeyHashes := idempotencyKeyHashes st;
     machine := machine st; lastError := lastError st;
     statusCode := statusCode st; trace := trace st |}.
Definition set_inFlight (n : Z) (st : Engine) : Engine :=
  {| circuitBreaker := circuitBreaker st; dedupeMap := dedupeMap st;
     metrics := metrics st; inFlight := n;
     idempotencyKeyHashes := idempotencyKeyHashes st;
     machine := machine st; lastError := lastError st;
     statusCode := statusCode st; trace := trace st |}.
Definition set_idempotencyKeyHashes (h : gmap string string) (st : Engine) : Engine :=
  {| circuitBreaker := circuitBreaker st; dedupeMap := dedupeMap st;
     metrics := metrics st; inFlight := inFlight st; idempotencyKeyHashes := h;
     machine := machine st; lastError := lastError st;
     statusCode := statusCode st; trace := trace st |}.
Definition set_machine (m : StateMachine) (st : Engine) : Engine :=
  {| circuitBreaker := circuitBreaker st; dedupeMap := dedupeMap st;
     metrics := metrics st; inFlight := inFlight st;
     idempotencyKeyHashes := idempotencyKeyHashes st;
     machine := m; lastError := lastError st;
     statusCode := statusCode st; trace := trace st |}.
Definition set_lastError (e : option JsError) (st : Engine) : Engine :=
  {| circuitBreaker := circuitBreaker st; dedupeMap := dedupeMap st;
     metrics := metrics st; inFlight := inFlight st;
     idempotencyKeyHashes := idempotencyKeyHashes st;
     machine := machine st; lastError := e;
     statusCode := statusCode st; trace := trace st |}.
Definition set_statusCode (s : option Z) (st : Engine) : Engine :=
  {| circuitBreaker := circuitBreaker st; dedupeMap := dedupeMap st;
     metrics := metrics st; inFlight := inFlight st;
     idempotencyKeyHashes := idempotencyKeyHashes st;
     machine := machine st; lastError := lastError st;
     statusCode := s; trace := trace st |}.
Definition set_trace (t : list Event) (st : Engine) : Engine :=
  {| circuitBreaker := circuitBreaker st; dedupeMap := dedupeMap st;
     metrics := metrics st; inFlight := inFlight st;
     idempotencyKeyHashes := idempotencyKeyHashes st;
     machine := machine st; lastError := lastError st;
     statusCode := statusCode st; trace := t |}.

(** The constructor: the filled configuration and the fresh mutable
    fields.  [hashes] is the module-level map, which the constructor does
    not touch. *)
Definition new_StrontiumClient (w : World) (cfg : StrontiumClientConfig)
  : StrontiumClient :=
  {| config :=
       {| baseURL := cfg_baseURL cfg;
          retry := mergeRetryConfig (default emptyRetryConfig (cfg_retry cfg));
          circuitBreakerConfig := default emptyBreakerConfig (cfg_circuitBreaker cfg);
          timeoutMs := default 30000 (cfg_timeoutMs cfg);
          dedupe := default true (cfg_dedupe cfg);
          protocolMode := default standard (cfg_protocolMode cfg);
          mode := default strict (cfg_mode cfg);
          transport := default (defaultTransport w) (cfg_transport cfg);
          headers := default ∅ (cfg_headers cfg) |};
     retryConfig := mergeRetryConfig (default emptyRetryConfig (cfg_retry cfg)) |}.

Definition new_Engine (cfg : StrontiumClientConfig)
    (hashes : gmap string string) : Engine :=
  {| circuitBreaker :=
       new_CircuitBreaker (default emptyBreakerConfig (cfg_circuitBreaker cfg));
     dedupeMap := new_DedupeMap;
     metrics := new_Metrics;
     inFlight := 0;
     idempotencyKeyHashes := hashes;
     machine := new_StateMachine;
     lastError := None;
     statusCode := None;
     trace := [] |}.

(* --------------------------------------------------------------------- *)
(** *** Statements over the engine state                                  *)
(* --------------------------------------------------------------------- *)

Definition M (A : Type) : Type := Engine -> Completion Engine A.

Definition ret {A} (a : A) : M A := fun st => Normal a st.

Definition bind {A B} (m : M A) (k : A -> M B) : M B :=
  fun st =>
    match m st with
    | Normal a st' => k a st'
    | Throws e st' => Throws e st'
    end.

Definition throw {A} (e : JsError) : M A := fun st => Throws e st.

(** [try { m } catch (err) { h err }] *)
Definition tryCatch {A} (m : M A) (h : JsError -> M A) : M A :=
  fun st =>
    match m st with
    | Normal a st' => Normal a st'
    | Throws e st' => h e st'
    end.

Definition get : M Engine := fun st => Normal st st.
Definition modify (f : Engine -> Engine) : M unit := fun st => Normal tt (f st).

Notation "x <- m ;; k" := (bind m (fun x => k))
  (at level 100, m at next level, right associativity).
Notation "m ;; k" := (bind m (fun _ => k))
  (at level 100, right associativity).

Definition emit (e : Event) : M unit :=
  modify (fun st => set_trace (trace st ++ [e]) st).

(** [machine.transition(next)] *)
Definition machine_transition (next : RequestState) : M unit :=
  fun st =>
    match transition next (machine st) with
    | Normal _ m' => emit (EvTransition next) (set_machine m' st)
    | Throws e _ => Throws e st
    end.

(** hooks/lifecycle.ts.  [runHook] awaits the user's function, if one is
    registered, and swallows whatever it throws: a hook call leaves the
    engine state alone and always completes normally.  The log records
    the call of the runner, whether or not a function is registered. *)
Definition runHook (hook : HookName) (attempt : Z) : M unit :=
  emit (EvHook hook attempt).

(** [this.circuitBreaker.check()] *)
Definition breaker_check (now : Z) : M unit :=
  emit EvCheck ;;
  fun st =>
    match check now (circuitBreaker st) with
    | Normal _ b => Normal tt (set_circuitBreaker b st)
    | Throws e b => Throws e (set_circuitBreaker b st)
    end.

Definition breaker_recordSuccess : M unit :=
  emit EvRecordSuccess ;;
  modify (fun st => set_circuitBreaker (recordSuccess (circuitBreaker st)) st).

Definition breaker_recordFailure (now : Z) : M unit :=
  emit EvRecordFailure ;;
  modify (fun st => set_circuitBreaker (recordFailure now (circuitBreaker st)) st).

(** [this.metrics.record(sample)] *)
Definition record_sample (sample : MetricsSample) : M unit :=
  emit (EvMetrics sample) ;;
  modify (fun st => set_metrics (metrics_record sample (metrics st)) st).

(** [await enforceIntegrity(idemKey, body)] *)
Definition engine_enforceIntegrity (idemKey : string) (body : option JsValue)
  : M string :=
  fun st =>
    match enforceIntegrity idemKey body (idempotencyKeyHashes st) with
    | Normal hash h => Normal hash (set_idempotencyKeyHashes h st)
    | Throws e h => Throws e (set_idempotencyKeyHashes h st)
    end.

(** [await backoff(this.retryConfig, attempt)] *)
Definition backoff (cfg : RetryConfig) (attempt : Z) (random : Q) : M unit :=
  emit (EvBackoff (backoffDelay cfg attempt random)).

(** A value that is awaited or a call that may throw. *)
Definition await {A} (r : Result A) : M A :=
  match r with Ok a => ret a | Err e => throw e end.

(** How one turn of the attempt loop ends. *)
Inductive LoopStep :=
| Continue
| Break
| Return (result : StrontiumResponse).

(** The retry dance shared by the three failure branches. *)
Definition retryDance (c : StrontiumClient) (aw : AttemptWorld)
    (attempt : Z) : M LoopStep :=
  machine_transition RETRYING ;;
  runHook onRetry attempt ;;
  backoff (retryConfig c) attempt (random aw) ;;
  machine_transition PENDING ;;
  ret Continue.

(* --------------------------------------------------------------------- *)
(** *** One attempt                                                       *)
(* --------------------------------------------------------------------- *)

(** ['Content-Type'], ['X-Request-Id'], then the client's headers, then
    the request's: in an object literal a later entry overrides an earlier
    one, and [∪] keeps the left one. *)
Definition composeHeaders (c : StrontiumClient) (requestId : string)
    (hdrs : gmap string string) : gmap string string :=
  hdrs ∪ (headers (config c)
          ∪ (<["X-Request-Id" := requestId]>
               ({["Content-Type" := "application/json"]} : gmap string string))).

(** The [protocolMode === 'idempotent'] block. *)
Definition idempotencyHeaders (c : StrontiumClient) (aw : AttemptWorld)
    (options : RequestOptions) (body : option JsValue)
    (requestHeaders : gmap string string) : M (gmap string string) :=
  if bool_decide (protocolMode (config c) = idempotent) then
    let idemKey := default (idempotencyKey_gen aw) (o_idempotencyKey options) in
    let requestHeaders := <["Idempotency-Key" := idemKey]> requestHeaders in
    match body with
    | Some _ =>
        hash <- engine_enforceIntegrity idemKey body ;;
        ret (<["X-Payload-Hash" := hash]> requestHeaders)
    | None => ret requestHeaders
    end
  else ret requestHeaders.

(** The schema check of the [try] block. *)
Definition validate (c : StrontiumClient) (schema : option Validator)
    (attempt : Z) (data : JsValue) : M JsValue :=
  match schema with
  | Some sch =>
      if bool_decide (mode (config c) = strict) then
        match sch data with
        | Ok parsed => ret parsed
        | Err err =>
            let validationError :=
              ResponseValidationError "Response validation failed" err in
            machine_transition ERROR ;;
            runHook onError attempt ;;
            throw validationError
        end
      else ret data
  | None => ret data
  end.

(** Reading the body: [response.json()] when the content type mentions
    JSON, [response.text()] otherwise. *)
Definition decodeBody (response : Response) : Result JsValue :=
  let contentType :=
    default EmptyString (resp_headers response !! "content-type") in
  if String_includes "application/json" contentType
  then json response
  else text response.

(** The body of the [try] block, from the transport call on. *)
Definition tryBlock (c : StrontiumClient) (w : World) (aw : AttemptWorld)
    (requestId method url : string) (schema : option Validator)
    (timeoutMs : Z) (attempt : Z) (req : TransportRequest) : M LoopStep :=
  emit (EvFetch attempt req timeoutMs) ;;
  response <- await (withTimeout (fetch w attempt req) timeoutMs) ;;
  modify (set_statusCode (Some (status response))) ;;
  let latencyMs := now_settled aw - now_start aw in
  modify (fun st => set_inFlight (inFlight st - 1) st) ;;
  if negb (ok response) then
    breaker_recordFailure (now_failure aw) ;;
    modify (set_lastError
              (Some (NetworkError ("HTTP " +:+ pretty (status response))))) ;;
    if shouldRetry (retryConfig c) None (Some (status response)) attempt
       && (attempt <? maxAttempts (retryConfig c))
    then retryDance c aw attempt
    else ret Break
  else
    data <- await (decodeBody response) ;;
    data <- validate c schema attempt data ;;
    breaker_recordSuccess ;;
    machine_transition SUCCESS ;;
    let result :=
      {| data := data;
         r_status := status response;
         r_headers := headersToRecord (resp_headers response);
         r_requestId := requestId;
         r_attempt := attempt;
         r_latencyMs := latencyMs |} in
    record_sample
      {| ms_requestId := requestId; ms_url := url; ms_method := method;
         ms_latencyMs := latencyMs; ms_attempt := attempt;
         ms_status := Some (status response); ms_success := true |} ;;
    runHook onAfterResponse attempt ;;
    ret (Return result).

(** The [catch] block. *)
Definition catchBlock (c : StrontiumClient) (aw : AttemptWorld)
    (requestId method url : string) (timeoutMs : Z)
    (options : RequestOptions) (attempt : Z) (err : JsError) : M LoopStep :=
  if isResponseValidationError err then throw err else
  modify (fun st => set_inFlight (inFlight st - 1) st) ;;
  let latencyMs := now_caught aw - now_start aw in
  if isTimeoutError err || isAbortError err then
    let timeoutError :=
      if isTimeoutError err then err else TimeoutError timeoutMs in
    modify (set_lastError (Some timeoutError)) ;;
    if o_signal options && signal_aborted aw then
      machine_transition CANCELLED ;;
      runHook onCancel attempt ;;
      throw timeoutError
    else
      breaker_recordFailure (now_failure aw) ;;
      record_sample
        {| ms_requestId := requestId; ms_url := url; ms_method := method;
           ms_latencyMs := latencyMs; ms_attempt := attempt;
           ms_status := None; ms_success := false |} ;;
      if shouldRetry (retryConfig c) (Some timeoutError) None attempt
         && (attempt <? maxAttempts (retryConfig c))
      then retryDance c aw attempt
      else
        machine_transition ERROR ;;
        throw timeoutError
  else
    st <- get ;;
    if bool_decide (machine st ≠ ERROR) && bool_decide (machine st ≠ CANCELLED)
    then
      let isNetworkErr := isTypeError err in
      modify (set_lastError (Some err)) ;;
      breaker_recordFailure (now_failure aw) ;;
      record_sample
        {| ms_requestId := requestId; ms_url := url; ms_method := method;
           ms_latencyMs := latencyMs; ms_attempt := attempt;
           ms_status := statusCode st; ms_success := false |} ;;
      if isNetworkErr
         && shouldRetry (retryConfig c) (Some err) None attempt
         && (attempt <? maxAttempts (retryConfig c))
      then retryDance c aw attempt
      else
        machine_transition ERROR ;;
        runHook onError attempt ;;
        throw err
    else throw err.

(** The arguments of the transport call of an attempt. *)
Definition transportRequest (method url : string) (body : option JsValue)
    (requestHeaders : gmap string string) : TransportRequest :=
  let hasBody :=
    bool_decide (body ≠ None) && bool_decide (method ≠ "GET")
    && bool_decide (method ≠ "HEAD") in
  {| tr_url := url;
     tr_method := method;
     tr_headers := requestHeaders;
     tr_body := if hasBody then JSON_stringify <$> body else None |}.

(** One turn of the [for] loop, up to the [try] block: the concurrency
    cap, the breaker check, the [onBeforeRequest] hook and the headers.  It
    yields the arguments of the transport call. *)
Definition prepareAttempt (c : StrontiumClient) (w : World)
    (requestId method url : string) (body : option JsValue)
    (hdrs : gmap string string) (options : RequestOptions) (attempt : Z)
  : M TransportRequest :=
  let aw := attemptWorld w attempt in
  st <- get ;;
  if MAX_CONCURRENT_REQUESTS <=? inFlight st then
    throw (NetworkError "Max concurrent requests exceeded")
  else
    tryCatch (breaker_check (now_check aw))
             (fun err =>
                runHook onCircuitOpen attempt ;;
                machine_transition ERROR ;;
                throw err) ;;
    runHook onBeforeRequest attempt ;;
    requestHeaders <-
      idempotencyHeaders c aw options body (composeHeaders c requestId hdrs) ;;
    ret (transportRequest method url body requestHeaders).

(** The rest of the turn: [inFlight++] and the [try]/[catch] around the
    transport call. *)
Definition transportPhase (c : StrontiumClient) (w : World)
    (requestId method url : string) (schema : option Validator)
    (timeoutMs : Z) (options : RequestOptions) (attempt : Z)
    (req : TransportRequest) : M LoopStep :=
  let aw := attemptWorld w attempt in
  modify (fun st => set_inFlight (inFlight st + 1) st) ;;
  modify (set_statusCode None) ;;
  tryCatch (tryBlock c w aw requestId method url schema timeoutMs attempt req)
           (catchBlock c aw requestId method url timeoutMs options attempt).

(** One turn of the [for] loop of [_executeWithRetry]. *)
Definition attemptBody (c : StrontiumClient) (w : World)
    (requestId method url : string) (body : option JsValue)
    (hdrs : gmap string string) (schema : option Validator)
    (timeoutMs : Z) (options : RequestOptions) (attempt : Z) : M LoopStep :=
  req <- prepareAttempt c w requestId method url body hdrs options attempt ;;
  transportPhase c w requestId method url schema timeoutMs options attempt req.

(* --------------------------------------------------------------------- *)
(** *** The attempt loop and the request                                  *)
(* --------------------------------------------------------------------- *)

(** [for (let attempt = 1; attempt <= maxAttempts; attempt++)], over the
    attempt numbers still to run; [None] when the loop is left without a
    [return]. *)
Fixpoint attemptLoop (c : StrontiumClient) (w : World)
    (requestId method url : string) (body : option JsValue)
    (hdrs : gmap string string) (schema : option Validator)
    (timeoutMs : Z) (options : RequestOptions) (attempts : list Z)
  : M (option StrontiumResponse) :=
  match attempts with
  | [] => ret None
  | attempt :: rest =>
      step <- attemptBody c w requestId method url body hdrs schema
                          timeoutMs options attempt ;;
      match step with
      | Continue =>
          attemptLoop c w requestId method url body hdrs schema
                      timeoutMs options rest
      | Break => ret None
      | Return result => ret (Some result)
      end
  end.

(** [_executeWithRetry].  The machine, [lastError] and the log are fresh
    for each call. *)
Definition executeWithRetry (c : StrontiumClient) (w : World)
    (requestId method url : string) (body : option JsValue)
    (hdrs : gmap string string) (schema : option Validator)
    (timeoutMs : Z) (options : RequestOptions) : M StrontiumResponse :=
  modify (set_machine new_StateMachine) ;;
  modify (set_lastError None) ;;
  modify (set_trace []) ;;
  machine_transition PENDING ;;
  r <- attemptLoop c w requestId method url body hdrs schema timeoutMs
                   options (seqZ 1 (maxAttempts (retryConfig c))) ;;
  match r with
  | Some result => ret result
  | None =>
      machine_transition ERROR ;;
      st <- get ;;
      if maxAttempts (retryConfig c) <=? 1 then
        throw (default (NetworkError "Request failed") (lastError st))
      else
        throw (RetryExhaustedError (maxAttempts (retryConfig c)) (lastError st))
  end.

(** The condition under which [request] deduplicates. *)
Definition dedupeApplies (c : StrontiumClient) (options : RequestOptions) : bool :=
  dedupe (config c)
  && (bool_decide (o_method options = GET) || bool_decide (o_method options = HEAD))
  && (maxAttempts (retryConfig c) <=? 1).

Definition fullUrl (c : StrontiumClient) (options : RequestOptions) : string :=
  if String.prefix "http" (o_url options) then o_url options
  else baseURL (config c) +:+ o_url options.

Definition dedupeKeyOf (c : StrontiumClient) (options : RequestOptions) : string :=
  computeDedupeKey (methodName (o_method options)) (fullUrl c options)
                   (computePayloadHash (o_body options)).

(** What a call of [request] amounts to: it hands back a promise that is
    already in flight (the promise of the [async] function adopts it, so
    the caller receives the very response object that promise resolves
    to), or it starts an execution of its own.  In the second case
    [inflight] is the dedupe map while the new promise is pending and
    [completion] is how the execution ends, with the state it leaves once
    the promise has settled. *)
Inductive RequestResult :=
| Joined (existing : PromiseId) (st : Engine)
| Ran (promise : PromiseId) (inflight : DedupeMap)
      (completion : Completion Engine StrontiumResponse).

Definition onState {A} (f : Engine -> Engine) (c : Completion Engine A)
  : Completion Engine A :=
  match c with
  | Normal a st => Normal a (f st)
  | Throws e st => Throws e (f st)
  end.

Definition request (c : StrontiumClient) (w : World) (options : RequestOptions)
    (st : Engine) : RequestResult :=
  let method := o_method options in
  let body := o_body options in
  let hdrs := default ∅ (o_headers options) in
  let schema := o_schema options in
  let url := fullUrl c options in
  let requestId := requestId_gen w in
  let effectiveTimeout := default (timeoutMs (config c)) (o_timeoutMs options) in
  if dedupeApplies c options then
    let bodyHash := computePayloadHash body in
    let dedupeKey := computeDedupeKey (methodName method) url bodyHash in
    match dedupe_get dedupeKey (dedupeMap st) with
    | Some existing => Joined existing st
    | None =>
        let promise := promise_gen w in
        let inflight := dedupe_set dedupeKey promise (dedupeMap st) in
        Ran promise inflight
            (onState
               (fun st' => set_dedupeMap (dedupe_settled dedupeKey (dedupeMap st')) st')
               (executeWithRetry c w requestId (methodName method) url body hdrs
                                 schema effectiveTimeout options
                                 (set_dedupeMap inflight st)))
    end
  else
    Ran (promise_gen w) (dedupeMap st)
        (executeWithRetry c w requestId (methodName method) url body hdrs
                          schema effectiveTimeout options st).

End Engine.

(* --------------------------------------------------------------------- *)
(** *** Reading the log                                                   *)
(* --------------------------------------------------------------------- *)







Definition isFetch (e : Event) : bool :=
  match e with EvFetch _ _ _ => true | _ => false end.

Definition fetchCalls (tr : list Event) : nat :=
  length (List.filter isFetch tr).




(** The client [c] with its [transport] field replaced. *)
Definition with_transport `{RT : Runtime} (t : Transport) (c : StrontiumClient)
  : StrontiumClient :=
  {| config :=
       {| baseURL := baseURL (config c);
          retry := retry (config c);
          circuitBreakerConfig := circuitBreakerConfig (config c);
          timeoutMs := timeoutMs (config c);
          dedupe := dedupe (config c);
          protocolMode := protocolMode (config c);
          mode := mode (config c);
          transport := t;
          headers := headers (config c) |};
     retryConfig := retryConfig c |}.

(* ===================================================================== *)
(** ** The specification's wording, where it is compared with the code    *)
(* ===================================================================== *)


(** Follows the spec's words: a buffer whose samples carry the time they
    were recorded at, and the count of failed samples whose timestamp lies
    within the last [windowMs] milliseconds of [now]. *)
Definition recentFailures_spec (now windowMs : Z)
    (stamped : list (Z * MetricsSample)) : Z :=
  Z.of_nat (length (filter
    (fun ts : Z * MetricsSample =>
       ms_success ts.2 = false /\ now - windowMs <= ts.1 /\ ts.1 <= now)
    stamped)).


(* ===================================================================== *)
(** ** Closed examples                                                    *)
(* ===================================================================== *)

(** A runtime to run the engine on: a value is its JSON text and the
    digest is a tagged copy of its input. *)
Definition demoRuntime : Runtime :=
  {| JsValue := string;
     JSON_stringify := fun v => v;
     sha256 := fun s => "sha256:" +:+ s |}.

Definition demoResponse (st : Z) (body : string) : @Response demoRuntime :=
  {| status := st;
     ok := (200 <=? st) && (st <? 300);
     resp_headers := {["content-type" := "application/json"]};
     json := Ok (body : @JsValue demoRuntime);
     text := Ok (body : @JsValue demoRuntime) |}.

Definition demoAttemptWorld : AttemptWorld :=
  {| now_check := 1005; now_start := 1005; now_settled := 1010;
     now_caught := 1010; now_failure := 1010; random := 0;
     idempotencyKey_gen := "idem_1005_abcdefghi"; signal_aborted := false |}.

(** A world whose global [fetch] behaves as [t]. *)
Definition demoWorld (t : @Transport demoRuntime) : @World demoRuntime :=
  {| fetch := t; requestId_gen := "req_1005_abcdefg"; promise_gen := 1%nat;
     attemptWorld := fun _ => demoAttemptWorld |}.

Definition respondsWith (st : Z) (body : string) : @Transport demoRuntime :=
  fun _ _ => SettlesFirst (Ok (demoResponse st body)).

Definition rejectsWith (e : JsError) : @Transport demoRuntime :=
  fun _ _ => SettlesFirst (Err e).

Definition demoConfig (retry : option PartialRetryConfig)
    (breaker : option PartialCircuitBreakerConfig)
    (t : option (@Transport demoRuntime)) : @StrontiumClientConfig demoRuntime :=
  {| cfg_baseURL := "https://api.example.com";
     cfg_retry := retry;
     cfg_circuitBreaker := breaker;
     cfg_timeoutMs := None;
     cfg_dedupe := None;
     cfg_protocolMode := None;
     cfg_mode := None;
     cfg_transport := t;
     cfg_headers := None |}.

Definition singleAttempt : PartialRetryConfig :=
  {| p_enabled := None; p_maxAttempts := Some 1; p_strategy := None;
     p_baseDelayMs := None; p_maxDelayMs := None; p_jitter := None;
     p_retryOn := None |}.

Definition demoOptions (m : HttpMethod) (path : string)
    (schema : option (@Validator demoRuntime)) : @RequestOptions demoRuntime :=
  {| o_method := m; o_url := path; o_body := None; o_headers := None;
     o_schema := schema; o_signal := false; o_idempotencyKey := None;
     o_timeoutMs := None |}.

(** A validator that rejects every value. *)
Definition rejectingSchema : @Validator demoRuntime :=
  fun _ => Err (OtherError "missing id").

(** The completion of a request that ran, [None] for one that joined a
    pending promise. *)
Definition completionOf `{RT : Runtime} (r : RequestResult)
  : option (Completion Engine StrontiumResponse) :=
  match r with
  | Joined _ _ => None
  | Ran _ _ completion => Some completion
  end.

(** A failed sample with the given latency. *)
Definition failedSample (latencyMs : Z) : MetricsSample :=
  {| ms_requestId := "req_1"; ms_url := "https://api.example.com/data";
     ms_method := "GET"; ms_latencyMs := latencyMs; ms_attempt := 1;
     ms_status := None; ms_success := false |}.

(** A breaker configuration that opens on the first failure. *)
Definition opensAtOnce : PartialCircuitBreakerConfig :=
  {| p_failureThreshold := Some 1; p_resetTimeoutMs := None;
     p_halfOpenMaxCalls := None |}.

(** The state of a client of that configuration whose breaker opened at
    time 1000. *)
Definition engineWithOpenBreaker : Engine :=
  let fresh := new_Engine (demoConfig None (Some opensAtOnce) None) ∅ in
  set_circuitBreaker (recordFailure 1000 (circuitBreaker fresh)) fresh.

(* ===================================================================== *)
(** ** Sequences of calls, [health], and more readings of the log         *)
(* ===================================================================== *)

(** [transition] called with each state of [nexts] in turn, every throw
    caught by the caller. *)
Definition transitions (nexts : list RequestState) (m : StateMachine)
  : StateMachine :=
  foldl (fun m next => stateOf (transition next m)) m nexts.

(** A call of one of the three methods of the breaker that change it. *)
Inductive BreakerCall :=
| CallCheck (now : Z)
| CallRecordSuccess
| CallRecordFailure (now : Z).

(** The breaker after the call, whether or not the call threw. *)
Definition afterCall (b : CircuitBreaker) (call : BreakerCall) : CircuitBreaker :=
  match call with
  | CallCheck now => stateOf (check now b)
  | CallRecordSuccess => recordSuccess b
  | CallRecordFailure now => recordFailure now b
  end.

Definition afterCalls (calls : list BreakerCall) (b : CircuitBreaker)
  : CircuitBreaker :=
  foldl afterCall b calls.

(** [check] called once per clock reading of [nows], every throw caught. *)
Definition checks (nows : list Z) (b : CircuitBreaker) : CircuitBreaker :=
  afterCalls (CallCheck <$> nows) b.

(** [record] called with each sample in turn. *)
Definition metrics_records (samples : list MetricsSample) (m : Metrics) : Metrics :=
  foldl (fun acc s => metrics_record s acc) m samples.



(** The calls of one hook in a log. *)
Definition HookName_eqb (a b : HookName) : bool :=
  match a, b with
  | onBeforeRequest, onBeforeRequest | onAfterResponse, onAfterResponse
  | onRetry, onRetry | onCircuitOpen, onCircuitOpen
  | onError, onError | onCancel, onCancel => true
  | _, _ => false
  end.

Definition isHook (h : HookName) (e : Event) : bool :=
  match e with
  | EvHook h' _ => HookName_eqb h' h
  | _ => false
  end.

Definition hookCalls (h : HookName) (tr : list Event) : nat :=
  length (List.filter (isHook h) tr).

(** What a dedupe map built by [set] and the settle callbacks keeps: one
    entry per key, no empty key, at most [MAX_DEDUPE_MAP_SIZE] entries. *)
Definition DedupeInv (m : DedupeMap) : Prop :=
  NoDup m.*1
  /\ Forall (fun k => truthy k = true) m.*1
  /\ Z.of_nat (length m) <= MAX_DEDUPE_MAP_SIZE.

(** What a breaker built by the constructor keeps under its own methods:
    counters that are not negative, a probe count within the limit, and a
    failure count below the threshold while CLOSED. *)
Definition BreakerInv (b : CircuitBreaker) : Prop :=
  0 <= failures b
  /\ 0 <= halfOpenCalls b <= Z.max 0 (halfOpenMaxCalls (cb_config b))
  /\ (cb_state b = CLOSED -> failures b < failureThreshold (cb_config b)).

(** The state at the head of the attempt loop of a call that starts from
    [st]: a fresh machine moved to PENDING, no last error, and a log that
    holds that one transition. *)
Definition started (st : Engine) : Engine :=
  {| circuitBreaker := circuitBreaker st;
     dedupeMap := dedupeMap st;
     metrics := metrics st;
     inFlight := inFlight st;
     idempotencyKeyHashes := idempotencyKeyHashes st;
     machine := PENDING;
     lastError := None;
     statusCode := statusCode st;
     trace := [EvTransition PENDING] |}.

(** What [_executeWithRetry] does once the loop is left without a
    [return]. *)
Definition afterLoop `{RT : Runtime} (c : StrontiumClient) (st : Engine)
  : Completion Engine StrontiumResponse :=
  match transition ERROR (machine st) with
  | Normal _ m' =>
      let st' := set_trace (trace st ++ [EvTransition ERROR]) (set_machine m' st) in
      if maxAttempts (retryConfig c) <=? 1 then
        Throws (default (NetworkError "Request failed") (lastError st')) st'
      else
        Throws (RetryExhaustedError (maxAttempts (retryConfig c)) (lastError st')) st'
  | Throws e _ => Throws e st
  end.

(* ===================================================================== *)
(** * Properties                                                          *)
(* ===================================================================== *)

(* --------------------------------------------------------------------- *)
(** ** Circuit breaker                                                    *)
(* --------------------------------------------------------------------- *)

Lemma recordFailure_config now b : cb_config (recordFailure now b) = cb_config b.
Proof. unfold recordFailure. repeat case_match; reflexivity. Qed.

Lemma recordFailure_failures now b : failures (recordFailure now b) = failures b + 1.
Proof. unfold recordFailure. repeat case_match; reflexivity. Qed.

Lemma recordFailure_reaching_threshold now b :
  failureThreshold (cb_config b) <= failures b + 1 ->
  cb_state (recordFailure now b) = OPEN /\ lastOpenedAt (recordFailure now b) = now.
Proof.
  intros Hth. unfold recordFailure; cbn.
  case_bool_decide; cbn; [done|].
  destruct (Z.leb_spec (failureThreshold (cb_config b)) (failures b + 1)); cbn; [done | lia].
Qed.

Lemma recordFailures_snoc nows now b :
  recordFailures (nows ++ [now]) b = recordFailure now (recordFailures nows b).
Proof. unfold recordFailures. by rewrite foldl_app. Qed.

Lemma recordFailures_counts nows b :
  failures (recordFailures nows b) = failures b + Z.of_nat (length nows)
  /\ cb_config (recordFailures nows b) = cb_config b.
Proof.
  induction nows as [|now nows IH] using rev_ind.
  - cbn. split; [lia | done].
  - rewrite recordFailures_snoc, recordFailure_failures, recordFailure_config, length_app.
    destruct IH as [-> ->]. cbn. split; [lia | done].
Qed.

Lemma check_throws (now : Z) (b b' : CircuitBreaker) (e : JsError) :
  check now b = Throws e b' -> e = CircuitOpenError.
Proof.
  unfold check, check_open, check_half_open.
  repeat case_match; intros; simplify_eq; reflexivity.
Qed.

(** C4.  The breaker's cycle.  (1) From CLOSED, with a failure count that
    is not negative and a threshold of at least one, [failureThreshold]
    calls of [recordFailure] in a row leave the breaker OPEN.  (2) On an
    OPEN breaker, a [check] at least [resetTimeoutMs] after [lastOpenedAt]
    moves it to HALF_OPEN and sets [halfOpenCalls] to 0 (the first [if] of
    [check]); the call ends in HALF_OPEN, and when a probe is allowed
    ([halfOpenMaxCalls >= 1]) it goes through and is counted from that zero.
    (3) [recordSuccess] in HALF_OPEN closes the breaker and sets [failures]
    to 0.  (4) [recordFailure] in HALF_OPEN opens it and stamps
    [lastOpenedAt] with the current time. *)
Theorem breaker_cycle :
  (forall (b : CircuitBreaker) (nows : list Z),
      cb_state b = CLOSED -> 0 <= failures b ->
      1 <= failureThreshold (cb_config b) ->
      Z.of_nat (length nows) = failureThreshold (cb_config b) ->
      cb_state (recordFailures nows b) = OPEN)
  /\ (forall (b : CircuitBreaker) (now : Z),
      cb_state b = OPEN ->
      resetTimeoutMs (cb_config b) <= now - lastOpenedAt b ->
      check_open now b = Normal tt (set_halfOpenCalls 0 (set_cb_state HALF_OPEN b))
      /\ cb_state (stateOf (check now b)) = HALF_OPEN
      /\ (1 <= halfOpenMaxCalls (cb_config b) ->
          check now b
          = Normal tt (set_halfOpenCalls 1 (set_cb_state HALF_OPEN b))))
  /\ (forall b : CircuitBreaker,
      cb_state b = HALF_OPEN ->
      cb_state (recordSuccess b) = CLOSED /\ failures (recordSuccess b) = 0)
  /\ (forall (b : CircuitBreaker) (now : Z),
      cb_state b = HALF_OPEN ->
      cb_state (recordFailure now b) = OPEN
      /\ lastOpenedAt (recordFailure now b) = now).
Proof.
  split; [|split; [|split]].
  - intros b nows Hclosed Hf Hth Hlen.
    revert Hlen. induction nows as [|now nows _] using rev_ind; intros Hlen;
      [cbn in Hlen; lia|].
    rewrite recordFailures_snoc.
    apply recordFailure_reaching_threshold.
    destruct (recordFailures_counts nows b) as [-> ->].
    rewrite length_app in Hlen. cbn in Hlen. lia.
  - intros b now Hopen Helapsed.
    unfold check, check_open. rewrite bool_decide_eq_true_2 by done.
    destruct (Z.leb_spec (resetTimeoutMs (cb_config b)) (now - lastOpenedAt b)); [|lia].
    split; [done|]. unfold check_half_open; cbn.
    rewrite bool_decide_eq_true_2 by done. split.
    + case_match; done.
    + intros Hmax.
      destruct (Z.leb_spec (halfOpenMaxCalls (cb_config b)) 0); [lia | done].
  - intros b Hhalf. unfold recordSuccess.
    rewrite bool_decide_eq_true_2 by done. done.
  - intros b now Hhalf. unfold recordFailure; cbn.
    rewrite bool_decide_eq_true_2 by done. done.
Qed.

(** A breaker with the default configuration walks the cycle: five
    failures open it, a check a minute later lets a probe through, and the
    probe's outcome closes or reopens it. *)
Lemma breaker_cycle_witness :
  let fresh := new_CircuitBreaker emptyBreakerConfig in
  let opened := recordFailures [10; 20; 30; 40; 50] fresh in
  let probing := set_halfOpenCalls 1 (set_cb_state HALF_OPEN opened) in
  cb_state opened = OPEN
  /\ check 60050 opened = Normal tt probing
  /\ cb_state (recordSuccess probing) = CLOSED
  /\ failures (recordSuccess probing) = 0
  /\ cb_state (recordFailure 60060 probing) = OPEN
  /\ lastOpenedAt (recordFailure 60060 probing) = 60060.
Proof.
  cbv zeta.
  destruct breaker_cycle as (Hopen & Hcheck & Hsuccess & Hfailure).
  assert (cb_state (recordFailures [10; 20; 30; 40; 50]
                      (new_CircuitBreaker emptyBreakerConfig)) = OPEN) as H1.
  { apply Hopen; [reflexivity | by vm_compute | by vm_compute | reflexivity]. }
  split; [exact H1|].
  split.
  { destruct (Hcheck _ 60050 H1 ltac:(by vm_compute)) as (_ & _ & Hprobe).
    apply Hprobe. by vm_compute. }
  split; [apply Hsuccess; reflexivity|].
  split; [apply Hsuccess; reflexivity|].
  split; apply (Hfailure _ 60060); reflexivity.
Defined.

(** C10.  On an OPEN breaker, a [recordFailure] whose incremented count
    is at least [failureThreshold] keeps the breaker OPEN and stamps
    [lastOpenedAt] with the current time, so that every [check] made less
    than [resetTimeoutMs] after that time is rejected. *)
Theorem recordFailure_while_open (b : CircuitBreaker) (now : Z) :
  cb_state b = OPEN ->
  failureThreshold (cb_config b) <= failures b + 1 ->
  cb_state (recordFailure now b) = OPEN
  /\ lastOpenedAt (recordFailure now b) = now
  /\ failures (recordFailure now b) = failures b + 1
  /\ forall later : Z,
       later - now < resetTimeoutMs (cb_config b) ->
       check later (recordFailure now b)
       = Throws CircuitOpenError (recordFailure now b).
Proof.
  intros Hopen Hth.
  destruct (recordFailure_reaching_threshold now b Hth) as [Hs Ht].
  repeat split; try done.
  - apply recordFailure_failures.
  - intros later Hlater. unfold check, check_open.
    rewrite bool_decide_eq_true_2 by done.
    rewrite Ht, recordFailure_config.
    destruct (Z.leb_spec (resetTimeoutMs (cb_config b)) (later - now)); [lia | done].
Qed.

(** A breaker that opened at time 50 fails again at time 30000: the
    window restarts, and a check at 60050 is still rejected. *)
Lemma recordFailure_while_open_witness :
  let opened := recordFailures [10; 20; 30; 40; 50]
                               (new_CircuitBreaker emptyBreakerConfig) in
  cb_state opened = OPEN
  /\ failureThreshold (cb_config opened) <= failures opened + 1
  /\ cb_state (recordFailure 30000 opened) = OPEN
  /\ lastOpenedAt (recordFailure 30000 opened) = 30000
  /\ check 60050 (recordFailure 30000 opened)
     = Throws CircuitOpenError (recordFailure 30000 opened).
Proof.
  cbv zeta.
  assert (cb_state (recordFailures [10; 20; 30; 40; 50]
                      (new_CircuitBreaker emptyBreakerConfig)) = OPEN) as H1
      by reflexivity.
  assert (failureThreshold
            (cb_config (recordFailures [10; 20; 30; 40; 50]
                          (new_CircuitBreaker emptyBreakerConfig)))
          <= failures (recordFailures [10; 20; 30; 40; 50]
                         (new_CircuitBreaker emptyBreakerConfig)) + 1) as H2
      by (by vm_compute).
  destruct (recordFailure_while_open _ 30000 H1 H2) as (Hs & Ht & _ & Hlater).
  split; [exact H1|]. split; [exact H2|]. split; [exact Hs|].
  split; [exact Ht|]. apply Hlater. by vm_compute.
Defined.

(* --------------------------------------------------------------------- *)
(** ** Backoff                                                            *)
(* --------------------------------------------------------------------- *)







(* --------------------------------------------------------------------- *)
(** ** Metrics buffer                                                     *)
(* --------------------------------------------------------------------- *)

Lemma recentFailures_steady_clock (now windowMs : Z) (samples : Metrics) :
  recentFailures now (fun _ => now) windowMs samples
  = Z.of_nat (length (filter
      (fun s => ms_success s = false /\ ms_latencyMs s < windowMs) samples)).
Proof.
  unfold recentFailures. f_equal.
  induction samples as [|s samples IH]; [reflexivity|].
  rewrite imap_cons. rewrite !filter_cons.
  replace (imap ((λ (i : nat) (s0 : MetricsSample),
             negb (ms_success s0) && (now - windowMs <? now - ms_latencyMs s0)) ∘ S) samples)
    with (imap (λ (i : nat) (s0 : MetricsSample),
             negb (ms_success s0) && (now - windowMs <? now - ms_latencyMs s0)) samples)
    by reflexivity.
  destruct (ms_success s) eqn:Hs;
    destruct (Z.ltb_spec (now - windowMs) (now - ms_latencyMs s));
    cbn; rewrite ?Hs; repeat case_decide; cbn;
    try (rewrite IH; reflexivity); try exact IH;
    exfalso; intuition (try lia; try congruence).
Qed.

(** C3.  The code does not count what the specification describes.  A failure
    recorded one second ago after a call that took 70 s is inside the
    60 s window and is not counted; a failure recorded more than a day ago
    after a call that took 5 ms is outside it and is counted.  With a
    steady clock [recentFailures] compares the window with each sample's
    latency, and no sample carries a timestamp. *)
Theorem recentFailures_counts_by_latency :
  recentFailures_default 1000000 (fun _ => 1000000) [failedSample 70000] = 0
  /\ recentFailures_spec 1000000 60000 [(999000, failedSample 70000)] = 1
  /\ recentFailures_default 100000000 (fun _ => 100000000) [failedSample 5] = 1
  /\ recentFailures_spec 100000000 60000 [(1000, failedSample 5)] = 0
  /\ (forall (now windowMs : Z) (samples : Metrics),
        recentFailures now (fun _ => now) windowMs samples
        = Z.of_nat (length (filter
            (fun s => ms_success s = false /\ ms_latencyMs s < windowMs) samples))).
Proof.
  repeat split; try (vm_compute; reflexivity).
  apply recentFailures_steady_clock.
Qed.

(* --------------------------------------------------------------------- *)
(** ** Idempotency registry                                               *)
(* --------------------------------------------------------------------- *)

Section Integrity.
Context `{RT : Runtime}.

Lemma enforceIntegrity_accepts (key : string) (body : option JsValue)
    (reg : gmap string string) :
  reg !! key = None \/ reg !! key = Some (computePayloadHash body) ->
  enforceIntegrity key body reg
  = Normal (computePayloadHash body) (<[key := computePayloadHash body]> reg).
Proof.
  intros H. unfold enforceIntegrity.
  rewrite bool_decide_eq_false_2; [reflexivity|].
  intros [Hsome Hdiff]. destruct H; congruence.
Qed.

Lemma enforceIntegrity_rejects (key : string) (body : option JsValue)
    (reg : gmap string string) (pinned : string) :
  reg !! key = Some pinned -> pinned <> computePayloadHash body ->
  exists message,
    enforceIntegrity key body reg = Throws (IntegrityViolationError message) reg.
Proof.
  intros Hpin Hdiff. unfold enforceIntegrity.
  rewrite bool_decide_eq_true_2; [eexists; reflexivity|].
  rewrite Hpin. split; congruence.
Qed.

(** C5.  For every idempotency key: (1) when the key is free or pinned to
    the fingerprint of [body], [enforceIntegrity] succeeds, returns
    [sha256] of the serialized body and leaves the key pinned to it, and
    every further call with a body of the same serialized text succeeds
    with the same fingerprint and the same registry; (2) when the key is
    pinned and the body's fingerprint differs from the pinned one, the
    call throws an [IntegrityViolationError] and the registry, hence the
    pinned fingerprint, is unchanged. *)
Theorem enforceIntegrity_pins_fingerprint (key : string)
    (reg : gmap string string) :
  (forall body body' : option JsValue,
      reg !! key = None \/ reg !! key = Some (computePayloadHash body) ->
      serialized body' = serialized body ->
      let fingerprint := sha256 (serialized body) in
      let pinned := <[key := fingerprint]> reg in
      enforceIntegrity key body reg = Normal fingerprint pinned
      /\ pinned !! key = Some fingerprint
      /\ enforceIntegrity key body' pinned = Normal fingerprint pinned)
  /\ (forall (body : option JsValue) (pinned : string),
      reg !! key = Some pinned ->
      computePayloadHash body <> pinned ->
      (exists message,
          enforceIntegrity key body reg
          = Throws (IntegrityViolationError message) reg)
      /\ stateOf (enforceIntegrity key body reg) !! key = Some pinned).
Proof.
  split.
  - intros body body' Hfree Hsame fingerprint pinned.
    assert (computePayloadHash body' = fingerprint) as Hfp'
        by (unfold computePayloadHash; by rewrite Hsame).
    assert (pinned !! key = Some fingerprint) as Hpinned
        by apply lookup_insert_eq.
    split; [by apply enforceIntegrity_accepts|].
    split; [exact Hpinned|].
    rewrite enforceIntegrity_accepts by (right; by rewrite Hfp').
    rewrite Hfp'. f_equal. by apply insert_id.
  - intros body pinned Hpin Hdiff.
    destruct (enforceIntegrity_rejects key body reg pinned Hpin) as [msg Hmsg];
      [congruence|].
    split; [by exists msg|]. by rewrite Hmsg.
Qed.

End Integrity.

(** Key [k1] in an empty registry: the first body pins its fingerprint,
    the same body passes again, another body is rejected. *)
Lemma enforceIntegrity_pins_fingerprint_witness :
  let first : option (@JsValue demoRuntime) := Some "{a:1}" in
  let other : option (@JsValue demoRuntime) := Some "{a:2}" in
  let pinned : gmap string string := {["k1" := "sha256:{a:1}"]} in
  enforceIntegrity "k1" first ∅ = Normal "sha256:{a:1}" pinned
  /\ enforceIntegrity "k1" first pinned = Normal "sha256:{a:1}" pinned
  /\ (exists message,
        enforceIntegrity "k1" other pinned
        = Throws (IntegrityViolationError message) pinned)
  /\ stateOf (enforceIntegrity "k1" other pinned) !! "k1" = Some "sha256:{a:1}".
Proof.
  cbv zeta.
  destruct (enforceIntegrity_pins_fingerprint (RT := demoRuntime) "k1" ∅)
    as [Haccept _].
  destruct (Haccept (Some "{a:1}") (Some "{a:1}")
              (or_introl (lookup_empty _)) eq_refl) as (H1 & _ & H2).
  destruct (enforceIntegrity_pins_fingerprint (RT := demoRuntime) "k1"
              {["k1" := "sha256:{a:1}"]}) as [_ Hreject].
  destruct (Hreject (Some "{a:2}") "sha256:{a:1}")
    as [H3 H4]; [by vm_compute | by vm_compute |].
  split; [exact H1|]. split; [exact H2|]. split; [exact H3 | exact H4].
Defined.

(* --------------------------------------------------------------------- *)
(** ** Deduplication                                                      *)
(* --------------------------------------------------------------------- *)

Lemma Map_get_set (key : string) (p : PromiseId) (m : DedupeMap) :
  Map_get key (Map_set key p m) = Some p.
Proof.
  induction m as [|[k q] m IH]; cbn.
  - by rewrite bool_decide_eq_true_2.
  - case_bool_decide as Hk; cbn.
    + by rewrite bool_decide_eq_true_2.
    + by rewrite bool_decide_eq_false_2.
Qed.

Lemma dedupe_get_set (key : string) (p : PromiseId) (m : DedupeMap) :
  dedupe_get key (dedupe_set key p m) = Some p.
Proof. unfold dedupe_get, dedupe_set. apply Map_get_set. Qed.

Section Dedupe.
Context `{RT : Runtime}.

Lemma dedupeApplies_iff (c : StrontiumClient) (options : RequestOptions) :
  dedupeApplies c options = true
  <-> dedupe (config c) = true
      /\ (o_method options = GET \/ o_method options = HEAD)
      /\ maxAttempts (retryConfig c) <= 1.
Proof.
  unfold dedupeApplies.
  rewrite !andb_true_iff, orb_true_iff, !bool_decide_eq_true, Z.leb_le.
  tauto.
Qed.

(** C7.  [request] deduplicates exactly when [config.dedupe] is true,
    the method is GET or HEAD and [retry.maxAttempts <= 1]; the key is
    [METHOD:URL:fingerprint].  When it deduplicates, a request whose key
    has a pending entry gets that very promise and nothing runs; when it
    does not, an execution starts whatever the map holds; and when it
    deduplicates and the key is free the new promise is registered, so
    that a second request with the same key made while it is pending gets
    the first one's promise. *)
Theorem dedupe_applies_and_joins (c : StrontiumClient) (options : RequestOptions) :
  (dedupeApplies c options = true
   <-> dedupe (config c) = true
       /\ (o_method options = GET \/ o_method options = HEAD)
       /\ maxAttempts (retryConfig c) <= 1)
  /\ dedupeKeyOf c options
     = methodName (o_method options) +:+ ":" +:+ fullUrl c options +:+ ":"
       +:+ computePayloadHash (o_body options)
  /\ (forall (w : World) (st : Engine) (existing : PromiseId),
        dedupeApplies c options = true ->
        dedupe_get (dedupeKeyOf c options) (dedupeMap st) = Some existing ->
        request c w options st = Joined existing st)
  /\ (forall (w : World) (st : Engine),
        dedupeApplies c options = false ->
        exists completion,
          request c w options st = Ran (promise_gen w) (dedupeMap st) completion)
  /\ (forall (w : World) (st : Engine),
        dedupeApplies c options = true ->
        dedupe_get (dedupeKeyOf c options) (dedupeMap st) = None ->
        exists inflight completion,
          request c w options st = Ran (promise_gen w) inflight completion
          /\ forall (w' : World) (options' : RequestOptions) (st' : Engine),
               dedupeApplies c options' = true ->
               dedupeKeyOf c options' = dedupeKeyOf c options ->
               dedupeMap st' = inflight ->
               request c w' options' st' = Joined (promise_gen w) st').
Proof.
  split; [apply dedupeApplies_iff|].
  split; [reflexivity|].
  split; [|split].
  - intros w st existing Hdedupe Hpending.
    unfold request. rewrite Hdedupe.
    fold (dedupeKeyOf c options). by rewrite Hpending.
  - intros w st Hdedupe. unfold request. rewrite Hdedupe. eexists; reflexivity.
  - intros w st Hdedupe Hfree.
    unfold request at 1. rewrite Hdedupe.
    fold (dedupeKeyOf c options). rewrite Hfree.
    eexists _, _. split; [reflexivity|].
    intros w' options' st' Hdedupe' Hkey Hmap.
    unfold request. rewrite Hdedupe'.
    fold (dedupeKeyOf c options'). rewrite Hkey, Hmap.
    by rewrite dedupe_get_set.
Qed.

End Dedupe.

(** A GET on a client with a single attempt while promise 7 is pending
    under the same key: the request joins promise 7. *)
Lemma dedupe_applies_and_joins_witness :
  let w := demoWorld (respondsWith 200 "{}") in
  let cfg := demoConfig (Some singleAttempt) None None in
  let c := new_StrontiumClient w cfg in
  let options := demoOptions GET "/users/1" None in
  let st := set_dedupeMap
              [("GET:https://api.example.com/users/1:sha256:", 7%nat)]
              (new_Engine cfg ∅) in
  dedupeApplies c options = true
  /\ dedupe_get (dedupeKeyOf c options) (dedupeMap st) = Some 7%nat
  /\ request c w options st = Joined 7%nat st.
Proof.
  cbv zeta.
  assert (dedupeApplies
            (new_StrontiumClient (demoWorld (respondsWith 200 "{}"))
               (demoConfig (Some singleAttempt) None None))
            (demoOptions GET "/users/1" None) = true) as Hdedupe
      by (vm_compute; reflexivity).
  assert (dedupe_get
            (dedupeKeyOf
               (new_StrontiumClient (demoWorld (respondsWith 200 "{}"))
                  (demoConfig (Some singleAttempt) None None))
               (demoOptions GET "/users/1" None))
            (dedupeMap
               (set_dedupeMap
                  [("GET:https://api.example.com/users/1:sha256:", 7%nat)]
                  (new_Engine (demoConfig (Some singleAttempt) None None) ∅)))
          = Some 7%nat) as Hpending
      by (vm_compute; reflexivity).
  split; [exact Hdedupe|]. split; [exact Hpending|].
  destruct (dedupe_applies_and_joins
              (new_StrontiumClient (demoWorld (respondsWith 200 "{}"))
                 (demoConfig (Some singleAttempt) None None))
              (demoOptions GET "/users/1" None)) as (_ & _ & Hjoin & _).
  by apply Hjoin.
Defined.

(* --------------------------------------------------------------------- *)
(** ** The request engine                                                 *)
(* --------------------------------------------------------------------- *)

(** Running the engine symbolically: unfold the statements, reduce the
    field reads and the machine's transitions, and split on the first
    scrutinee that is stuck. *)
Ltac engine_unfold :=
  unfold attemptBody, prepareAttempt, transportPhase, tryBlock, catchBlock,
    validate, idempotencyHeaders, engine_enforceIntegrity, retryDance,
    breaker_check, breaker_recordFailure, breaker_recordSuccess,
    record_sample, backoff, runHook, machine_transition, await, tryCatch,
    bind, emit, modify, get, ret, throw,
    set_circuitBreaker, set_dedupeMap, set_metrics, set_inFlight,
    set_idempotencyKeyHashes, set_machine, set_lastError, set_statusCode,
    set_trace.

Ltac engine_cbn :=
  cbn [circuitBreaker dedupeMap metrics inFlight idempotencyKeyHashes machine
       lastError statusCode trace
       transition ALLOWED_TRANSITIONS includes existsb RequestState_eqb
       negb orb andb].


Ltac engine_case :=
  match goal with
  | |- context [match ?x with _ => _ end] =>
      lazymatch x with
      | context [match _ with _ => _ end] => fail
      | _ => destruct x eqn:?
      end
  end.



Section Lifecycle.
Context `{RT : Runtime}.







End Lifecycle.



Section Attempt.
Context `{RT : Runtime}.





Lemma attemptLoop_transport_unused (t : Transport) (c : StrontiumClient)
    (w : World) (requestId method url : string) (body : option JsValue)
    (hdrs : gmap string string) (schema : option Validator)
    (timeoutMs : Z) (options : RequestOptions) (attempts : list Z) (st : Engine) :
  attemptLoop (with_transport t c) w requestId method url body hdrs schema
              timeoutMs options attempts st
  = attemptLoop c w requestId method url body hdrs schema timeoutMs options
                attempts st.
Proof.
  revert st. induction attempts as [|attempt rest IH]; intros st; [reflexivity|].
  cbn [attemptLoop]. unfold bind.
  change (attemptBody (with_transport t c) w requestId method url body hdrs
                      schema timeoutMs options attempt st)
    with (attemptBody c w requestId method url body hdrs schema timeoutMs
                      options attempt st).
  destruct (attemptBody c w requestId method url body hdrs schema timeoutMs
                        options attempt st) as [[| |result] st'|e st'];
    [apply IH | reflexivity | reflexivity | reflexivity].
Qed.

Lemma executeWithRetry_transport_unused (t : Transport) (c : StrontiumClient)
    (w : World) (requestId method url : string) (body : option JsValue)
    (hdrs : gmap string string) (schema : option Validator)
    (timeoutMs : Z) (options : RequestOptions) (st : Engine) :
  executeWithRetry (with_transport t c) w requestId method url body hdrs schema
                   timeoutMs options st
  = executeWithRetry c w requestId method url body hdrs schema timeoutMs
                     options st.
Proof.
  unfold executeWithRetry, bind.
  repeat match goal with
         | |- match ?m ?s with _ => _ end = match ?m ?s with _ => _ end =>
             destruct (m s) as [? ?|? ?]; [|reflexivity]
         end.
  rewrite attemptLoop_transport_unused. reflexivity.
Qed.

End Attempt.

(** C1.  The engine does not call the configured transport.  Replacing
    the [transport] field of a client changes nothing of what [request]
    does; and a client configured with a transport that answers 200, in a
    world whose global [fetch] is rejected, fails with [fetch]'s error
    after one call of [fetch]. *)
Theorem request_calls_global_fetch :
  (* the engine never reads the transport option *)
  (forall `{RT : Runtime} (t : Transport) (c : StrontiumClient) (w : World)
          (options : RequestOptions) (st : Engine),
      request (with_transport t c) w options st = request c w options st)
  (* a client given a transport that answers 200, in a world whose global
     fetch fails: the request fails with fetch's error *)
  /\ let custom := respondsWith 200 "{}" in
     let w := demoWorld (rejectsWith (TypeError "fetch failed")) in
     let cfg := demoConfig (Some singleAttempt) None (Some custom) in
     let c := new_StrontiumClient w cfg in
     let result := request c w (demoOptions GET "/users/1" None)
                           (new_Engine cfg ∅) in
     transport (config c) = custom
     /\ (thrown <$> completionOf result) = Some (Some (TypeError "fetch failed"))
     /\ (fetchCalls ∘ trace ∘ stateOf <$> completionOf result) = Some 1%nat.
Proof.
  split.
  - intros RT t c w options st. unfold request.
    change (dedupeApplies (with_transport t c) options)
      with (dedupeApplies c options).
    change (fullUrl (with_transport t c) options) with (fullUrl c options).
    change (timeoutMs (config (with_transport t c))) with (timeoutMs (config c)).
    destruct (dedupeApplies c options); [destruct (dedupe_get _ _)|];
      rewrite ?executeWithRetry_transport_unused; reflexivity.
  - cbv zeta. repeat split; vm_compute; reflexivity.
Qed.


(* --------------------------------------------------------------------- *)
(** ** More on the state machine                                          *)
(* --------------------------------------------------------------------- *)

(** X1.  A terminal state is never left: from SUCCESS, ERROR or CANCELLED
    every [transition] throws a [DeterministicStateError] that names the
    state and the target, and whatever transitions are tried afterwards
    the machine keeps its state. *)
Theorem terminal_state_absorbs (m : StateMachine) :
  isTerminal m = true ->
  (forall next,
      transition next m = Throws (DeterministicStateError m next) m)
  /\ (forall nexts, transitions nexts m = m).
Proof.
  intros Hterm.
  assert (forall next,
             transition next m = Throws (DeterministicStateError m next) m) as H.
  { intros next. destruct m; try discriminate Hterm; reflexivity. }
  split; [exact H|].
  induction nexts as [|next nexts IH]; [reflexivity|].
  unfold transitions in *. cbn [foldl]. rewrite H. exact IH.
Qed.

Lemma terminal_state_absorbs_witness :
  isTerminal SUCCESS = true
  /\ transition PENDING SUCCESS
     = Throws (DeterministicStateError SUCCESS PENDING) SUCCESS
  /\ transitions [PENDING; RETRYING; ERROR; CANCELLED] SUCCESS = SUCCESS.
Proof.
  destruct (terminal_state_absorbs SUCCESS eq_refl) as [Hthrow Hkeep].
  split; [reflexivity|]. split; [apply Hthrow | apply Hkeep].
Defined.

(** X2.  A [transition] either throws and leaves the state as it was, or
    moves to the requested state; a move never enters IDLE, never stays
    in place, and starts from a state that is not terminal.  A fresh
    machine accepts PENDING and CANCELLED only. *)
Theorem transition_moves (next : RequestState) (m : StateMachine) :
  (transition next m = Throws (DeterministicStateError m next) m
   \/ (transition next m = Normal tt next
       /\ next <> IDLE /\ next <> m /\ isTerminal m = false))
  /\ (transition next new_StateMachine = Normal tt next
      <-> next = PENDING \/ next = CANCELLED).
Proof.
  split.
  - destruct m, next; cbn; first [by left | right; by repeat split].
  - destruct next; cbn; split; intros H;
      first [reflexivity | discriminate H | by left | by right
            | destruct H as [H|H]; discriminate H].
Qed.

(* --------------------------------------------------------------------- *)
(** ** More on retry                                                      *)
(* --------------------------------------------------------------------- *)

(** X3.  [shouldRetry] answers true exactly when retrying is enabled,
    the attempt is below [maxAttempts], and [retryOn] holds a matching
    member: [network] for a missing status; for a status [s], [5xx] with
    [s >= 500] or the number [s] itself.  The error argument is ignored,
    and the last attempt is never retried. *)
Theorem shouldRetry_iff (config : RetryConfig) (error : option JsError)
    (statusCode : option Z) (attempt : Z) :
  (shouldRetry config error statusCode attempt = true
   <-> enabled config = true
       /\ attempt < maxAttempts config
       /\ match statusCode with
          | None => network ∈ retryOn config
          | Some s => (fiveXX ∈ retryOn config /\ 500 <= s)
                      \/ onStatus s ∈ retryOn config
          end)
  /\ shouldRetry config error statusCode attempt
     = shouldRetry config None statusCode attempt
  /\ (maxAttempts config <= attempt ->
      shouldRetry config error statusCode attempt = false).
Proof.
  split; [|split].
  - unfold shouldRetry.
    destruct (enabled config); cbn; [|split; [discriminate|intros [? _]; discriminate]].
    destruct (Z.leb_spec (maxAttempts config) attempt);
      [split; [discriminate | intros (_ & ? & _); lia]|].
    rewrite existsb_exists. split.
    + intros (cond & Hin & Hmatch). apply list_elem_of_In in Hin.
      split; [reflexivity|]. split; [assumption|].
      destruct statusCode as [s|], cond as [| |n]; cbn in Hmatch;
        try discriminate Hmatch.
      * left. split; [assumption | lia].
      * right. apply bool_decide_eq_true in Hmatch. by subst.
      * assumption.
    + intros (_ & _ & Hmatch). destruct statusCode as [s|].
      * destruct Hmatch as [[Hin Hs]|Hin].
        -- exists fiveXX. split; [by apply list_elem_of_In|]. cbn. lia.
        -- exists (onStatus s). split; [by apply list_elem_of_In|]. cbn.
           by apply bool_decide_eq_true.
      * exists network. split; [by apply list_elem_of_In | reflexivity].
  - reflexivity.
  - intros Hlast. unfold shouldRetry. destruct (enabled config); cbn; [|reflexivity].
    destruct (Z.leb_spec (maxAttempts config) attempt); [reflexivity | lia].
Qed.

Lemma shouldRetry_iff_witness :
  shouldRetry DEFAULT_RETRY_CONFIG None (Some 503) 2 = true
  /\ shouldRetry DEFAULT_RETRY_CONFIG None (Some 503) 3 = false.
Proof.
  destruct (shouldRetry_iff DEFAULT_RETRY_CONFIG None (Some 503) 2)
    as ([_ Hyes] & _ & _).
  destruct (shouldRetry_iff DEFAULT_RETRY_CONFIG None (Some 503) 3)
    as (_ & _ & Hno).
  split.
  - apply Hyes. split; [reflexivity|]. split; [cbn; lia|].
    left. split; [|lia]. cbn. apply list_elem_of_In. cbn. tauto.
  - apply Hno. cbn. lia.
Defined.
(* --------------------------------------------------------------------- *)
(** ** More on the dedupe map                                             *)
(* --------------------------------------------------------------------- *)

Lemma Map_get_None (key : string) (m : DedupeMap) :
  key ∉ m.*1 -> Map_get key m = None.
Proof.
  induction m as [|[k p] m IH]; [reflexivity|]. cbn.
  intros Hnotin. apply not_elem_of_cons in Hnotin as [Hne Hnotin].
  rewrite bool_decide_eq_false_2 by congruence. by apply IH.
Qed.

Lemma Map_get_delete (key : string) (m : DedupeMap) :
  Map_get key (Map_delete key m) = None.
Proof.
  induction m as [|[k p] m IH]; [reflexivity|].
  unfold Map_delete, DedupeMap in *. rewrite filter_cons. cbn.
  case_decide as Hk; [|exact IH].
  cbn. rewrite bool_decide_eq_false_2 by exact Hk. exact IH.
Qed.

Lemma Map_get_delete_ne (key key' : string) (m : DedupeMap) :
  key' <> key -> Map_get key' (Map_delete key m) = Map_get key' m.
Proof.
  intros Hne. induction m as [|[k p] m IH]; [reflexivity|].
  unfold Map_delete, DedupeMap in *. rewrite filter_cons. cbn.
  case_decide as Hk; cbn.
  - by rewrite IH.
  - subst k. rewrite bool_decide_eq_false_2 by congruence. exact IH.
Qed.

Lemma Map_get_set_ne (key key' : string) (p : PromiseId) (m : DedupeMap) :
  key' <> key -> Map_get key' (Map_set key p m) = Map_get key' m.
Proof.
  intros Hne. induction m as [|[k q] m IH]; cbn.
  - by rewrite bool_decide_eq_false_2 by congruence.
  - case_bool_decide as Hk; cbn.
    + subst k. by rewrite !bool_decide_eq_false_2 by congruence.
    + by rewrite IH.
Qed.

Lemma Map_delete_keys (key : string) (m : DedupeMap) :
  (Map_delete key m).*1 = filter (fun k => k <> key) m.*1.
Proof.
  induction m as [|[k p] m IH]; [reflexivity|].
  unfold Map_delete, DedupeMap in *.
  rewrite fmap_cons, !filter_cons. cbn [fst].
  case_decide; rewrite ?fmap_cons; cbn [fst]; by rewrite IH.
Qed.

Lemma Map_delete_length (key : string) (m : DedupeMap) :
  (length (Map_delete key m) <= length m)%nat.
Proof. unfold Map_delete, DedupeMap. apply length_filter. Qed.

Lemma Map_set_keys (key : string) (p : PromiseId) (m : DedupeMap) :
  (Map_set key p m).*1 = if bool_decide (key ∈ m.*1) then m.*1 else m.*1 ++ [key].
Proof.
  induction m as [|[k q] m IH].
  - cbn. rewrite bool_decide_eq_false_2; [reflexivity | apply not_elem_of_nil].
  - cbn [Map_set]. destruct (decide (k = key)) as [->|Hk].
    + rewrite bool_decide_eq_true_2 by reflexivity. cbn.
      rewrite bool_decide_eq_true_2; [reflexivity | (apply elem_of_cons; by left)].
    + rewrite bool_decide_eq_false_2 by exact Hk.
      rewrite !fmap_cons, IH. cbn [fst].
      destruct (decide (key ∈ m.*1)) as [Hin|Hin].
      * rewrite !bool_decide_eq_true_2;
          [reflexivity | (apply elem_of_cons; by right) | exact Hin].
      * rewrite !bool_decide_eq_false_2; [reflexivity | | exact Hin].
        intros Hin'. apply elem_of_cons in Hin' as [->|Hin'];
          [by apply Hk | by apply Hin].
Qed.

Lemma Map_set_length (key : string) (p : PromiseId) (m : DedupeMap) :
  (length (Map_set key p m) <= S (length m))%nat.
Proof.
  rewrite <- (length_fmap fst (Map_set key p m)), Map_set_keys.
  case_bool_decide; rewrite ?length_app, length_fmap; cbn; lia.
Qed.

Lemma DedupeInv_delete (key : string) (m : DedupeMap) :
  DedupeInv m -> DedupeInv (Map_delete key m).
Proof.
  intros (Hnodup & Hkeys & Hsize). unfold DedupeInv.
  rewrite Map_delete_keys. split; [by apply NoDup_filter|].
  split.
  { apply Forall_forall. intros k Hk.
    apply list_elem_of_filter in Hk as [_ Hk].
    by apply (proj1 (Forall_forall _ _) Hkeys). }
  pose proof (Map_delete_length key m). lia.
Qed.

(** X4.  The dedupe map keeps its shape.  If the map holds one entry per
    key, no empty key and at most 1000 entries, then so does the map after
    [set] with a key that is not empty, and so does the map after a
    promise settled. *)
Theorem dedupe_map_bounded :
  (forall (key : string) (promise : PromiseId) (m : DedupeMap),
      DedupeInv m -> truthy key = true ->
      DedupeInv (dedupe_set key promise m))
  /\ (forall (key : string) (m : DedupeMap),
      DedupeInv m -> DedupeInv (dedupe_settled key m)).
Proof.
  split; [|intros key m; apply DedupeInv_delete].
  intros key promise m Hinv Hkey. unfold dedupe_set.
  set (m1 := if MAX_DEDUPE_MAP_SIZE <=? Z.of_nat (length m)
             then match m with
                  | (firstKey, _) :: _ =>
                      if truthy firstKey then Map_delete firstKey m else m
                  | [] => m
                  end
             else m).
  assert (DedupeInv m1 /\ Z.of_nat (length m1) < MAX_DEDUPE_MAP_SIZE) as [Hinv1 Hlt].
  { subst m1. destruct Hinv as (Hnodup & Hkeys & Hsize).
    destruct (Z.leb_spec MAX_DEDUPE_MAP_SIZE (Z.of_nat (length m)));
      [|split; [by repeat split | lia]].
    destruct m as [|[firstKey q] m]; [cbn in *; unfold MAX_DEDUPE_MAP_SIZE in *; lia|].
    assert (truthy firstKey = true) as ->
        by (by apply Forall_cons in Hkeys as [? _]).
    split; [by apply DedupeInv_delete|].
    unfold Map_delete, DedupeMap. rewrite filter_cons. cbn.
    rewrite decide_False by (intros Hne; by apply Hne).
    pose proof (length_filter (fun kv : string * PromiseId => kv.1 <> firstKey) m).
    cbn in *. lia. }
  destruct Hinv1 as (Hnodup & Hkeys & _). unfold DedupeInv.
  rewrite Map_set_keys. split; [|split].
  - case_bool_decide as Hin; [exact Hnodup|].
    apply NoDup_app. split; [exact Hnodup|]. split.
    + intros k Hk Hk'. apply list_elem_of_singleton in Hk' as ->. by apply Hin.
    + apply NoDup_singleton.
  - case_bool_decide; [exact Hkeys|].
    apply Forall_app. split; [exact Hkeys|]. by apply Forall_singleton.
  - pose proof (Map_set_length key promise m1). lia.
Qed.

Lemma dedupe_map_bounded_witness :
  DedupeInv (dedupe_set "GET:/a:h" 2%nat [("GET:/b:h", 1%nat)])
  /\ DedupeInv (dedupe_settled "GET:/b:h" [("GET:/b:h", 1%nat)]).
Proof.
  assert (DedupeInv [("GET:/b:h", 1%nat)]) as Hinv.
  { unfold DedupeInv. cbn. split; [|split].
    - apply NoDup_singleton.
    - by apply Forall_singleton.
    - unfold MAX_DEDUPE_MAP_SIZE. lia. }
  destruct dedupe_map_bounded as [Hset Hsettled].
  split; [by apply Hset | by apply Hsettled].
Defined.

(** X5.  Lookups after [set] and after a settle.  The key just set maps
    to its promise; while the map is not full every other key maps to
    what it mapped to before; once the promise settled its key is gone
    and the other keys are as they were. *)
Theorem dedupe_lookup (key : string) (promise : PromiseId) (m : DedupeMap) :
  dedupe_get key (dedupe_set key promise m) = Some promise
  /\ (forall key', key' <> key ->
        Z.of_nat (length m) < MAX_DEDUPE_MAP_SIZE ->
        dedupe_get key' (dedupe_set key promise m) = dedupe_get key' m)
  /\ dedupe_get key (dedupe_settled key (dedupe_set key promise m)) = None
  /\ (forall key', key' <> key ->
        dedupe_get key' (dedupe_settled key m) = dedupe_get key' m).
Proof.
  split; [apply Map_get_set|]. split; [|split].
  - intros key' Hne Hsize. unfold dedupe_get, dedupe_set.
    destruct (Z.leb_spec MAX_DEDUPE_MAP_SIZE (Z.of_nat (length m))); [lia|].
    by apply Map_get_set_ne.
  - apply Map_get_delete.
  - intros key' Hne. by apply Map_get_delete_ne.
Qed.

(** X6.  Eviction is first in, first out.  When the map is full (1000
    entries or more, one per key, the oldest key not empty) and a new key
    is set, the oldest key is dropped and every other key maps to what it
    mapped to before. *)
Theorem dedupe_evicts_oldest (key firstKey : string) (promise first : PromiseId)
    (rest : DedupeMap) :
  let m := (firstKey, first) :: rest in
  MAX_DEDUPE_MAP_SIZE <= Z.of_nat (length m) ->
  NoDup m.*1 -> truthy firstKey = true -> firstKey <> key ->
  dedupe_get firstKey (dedupe_set key promise m) = None
  /\ dedupe_get key (dedupe_set key promise m) = Some promise
  /\ (forall key', key' <> key -> key' <> firstKey ->
        dedupe_get key' (dedupe_set key promise m) = dedupe_get key' m)
  /\ (length (dedupe_set key promise m) <= length m)%nat.
Proof.
  intros m Hfull Hnodup Htruthy Hne.
  assert (dedupe_set key promise m = Map_set key promise (Map_delete firstKey m))
    as Hset.
  { unfold dedupe_set.
    destruct (Z.leb_spec MAX_DEDUPE_MAP_SIZE (Z.of_nat (length m))); [|lia].
    subst m. cbv beta iota. by rewrite Htruthy. }
  rewrite Hset. unfold dedupe_get.
  split; [|split; [|split]].
  - rewrite Map_get_set_ne by exact Hne. apply Map_get_delete.
  - apply Map_get_set.
  - intros key' Hk Hf. rewrite Map_get_set_ne by exact Hk.
    by apply Map_get_delete_ne.
  - pose proof (Map_set_length key promise (Map_delete firstKey m)) as Hlen.
    assert (length (Map_delete firstKey m) < length m)%nat; [|lia].
    subst m. unfold Map_delete, DedupeMap. rewrite filter_cons. cbn.
    rewrite decide_False by (intros H; by apply H).
    pose proof (length_filter (fun kv : string * PromiseId => kv.1 <> firstKey) rest).
    lia.
Qed.

Lemma dedupe_evicts_oldest_witness :
  let rest : DedupeMap := (fun i => ("k" +:+ pretty i, i)) <$> seq 1 999 in
  let m : DedupeMap := ("k0", 0%nat) :: rest in
  MAX_DEDUPE_MAP_SIZE <= Z.of_nat (length m)
  /\ dedupe_get "k0" (dedupe_set "new" 1000%nat m) = None
  /\ dedupe_get "new" (dedupe_set "new" 1000%nat m) = Some 1000%nat
  /\ (length (dedupe_set "new" 1000%nat m) <= length m)%nat.
Proof.
  intros rest m.
  assert (MAX_DEDUPE_MAP_SIZE <= Z.of_nat (length m)) as Hfull by (by vm_compute).
  assert (NoDup m.*1) as Hnodup
      by (apply (bool_decide_unpack _); vm_compute; reflexivity).
  destruct (dedupe_evicts_oldest "new" "k0" 1000%nat 0%nat rest
              Hfull Hnodup eq_refl ltac:(discriminate))
    as (Hgone & Hnew & _ & Hlen).
  split; [exact Hfull|]. split; [exact Hgone|]. split; [exact Hnew | exact Hlen].
Defined.
(* --------------------------------------------------------------------- *)
(** ** More on the metrics buffer                                         *)
(* --------------------------------------------------------------------- *)

Lemma metrics_record_length (sample : MetricsSample) (m : Metrics) :
  Z.of_nat (length m) <= maxSamples ->
  Z.of_nat (length (metrics_record sample m)) <= maxSamples.
Proof.
  unfold metrics_record, maxSamples. intros Hlen.
  destruct (Z.leb_spec 1000 (Z.of_nat (length m)));
    rewrite length_app; cbn; [|lia].
  destruct m; cbn in *; lia.
Qed.

(** X7.  The buffer is a window on the last 1000 samples.  Recording
    appends the sample at the end; a buffer below 1000 samples grows by
    one, a buffer of 1000 samples first drops its oldest one; and a buffer
    that holds at most 1000 samples still does after any number of
    records. *)
Theorem metrics_record_window (sample : MetricsSample) (m : Metrics) :
  last (metrics_record sample m) = Some sample
  /\ (Z.of_nat (length m) < maxSamples -> metrics_record sample m = m ++ [sample])
  /\ (Z.of_nat (length m) = maxSamples ->
      metrics_record sample m = tail m ++ [sample]
      /\ length (metrics_record sample m) = length m)
  /\ (forall samples,
        Z.of_nat (length m) <= maxSamples ->
        Z.of_nat (length (metrics_records samples m)) <= maxSamples).
Proof.
  split; [|split; [|split]].
  - unfold metrics_record. apply last_snoc.
  - intros Hlt. unfold metrics_record.
    destruct (Z.leb_spec maxSamples (Z.of_nat (length m))); [lia | reflexivity].
  - intros Hfull. unfold metrics_record.
    destruct (Z.leb_spec maxSamples (Z.of_nat (length m))); [|lia].
    split; [reflexivity|]. rewrite length_app. cbn.
    destruct m; cbn in *; [unfold maxSamples in *; lia | lia].
  - intros samples. revert m.
    induction samples as [|s samples IH]; intros m Hlen; [exact Hlen|].
    unfold metrics_records in *. cbn [foldl]. apply IH.
    by apply metrics_record_length.
Qed.

Lemma metrics_record_window_witness :
  metrics_record (failedSample 7) [failedSample 5] = [failedSample 5; failedSample 7]
  /\ Z.of_nat (length (metrics_records [failedSample 1; failedSample 2] new_Metrics))
     <= maxSamples.
Proof.
  destruct (metrics_record_window (failedSample 7) [failedSample 5])
    as (_ & Hgrow & _ & _).
  destruct (metrics_record_window (failedSample 7) new_Metrics)
    as (_ & _ & _ & Hbound).
  split; [apply Hgrow; by vm_compute | apply Hbound; by vm_compute].
Defined.

Lemma sum_latency_bounds (lo hi : Z) (samples : Metrics) (acc : Z) :
  Forall (fun s => lo <= ms_latencyMs s <= hi) samples ->
  acc + lo * Z.of_nat (length samples)
  <= foldl (fun acc s => acc + ms_latencyMs s) acc samples
  <= acc + hi * Z.of_nat (length samples).
Proof.
  intros Hall. revert acc.
  induction Hall as [|s samples Hs _ IH]; intros acc; [cbn; lia|].
  cbn [foldl length]. specialize (IH (acc + ms_latencyMs s)). lia.
Qed.

(** X8.  [averageLatency] is 0 for an empty buffer, and for a buffer that
    is not empty it lies between any two bounds that hold for the latency
    of every sample; in particular it is never negative when no latency
    is. *)
Theorem averageLatency_bounds (samples : Metrics) (lo hi : Z) :
  averageLatency [] = 0%Q
  /\ (samples <> [] ->
      Forall (fun s => lo <= ms_latencyMs s <= hi) samples ->
      (inject_Z lo <= averageLatency samples)%Q
      /\ (averageLatency samples <= inject_Z hi)%Q).
Proof.
  split; [reflexivity|].
  intros Hne Hall. unfold averageLatency.
  rewrite bool_decide_eq_false_2 by (by destruct samples).
  pose proof (sum_latency_bounds lo hi samples 0 Hall) as Hsum.
  set (sum := foldl (fun acc s => acc + ms_latencyMs s) 0 samples) in *.
  set (n := Z.of_nat (length samples)) in *.
  assert (0 < n) as Hn by (subst n; destruct samples; [done | cbn; lia]).
  assert (0 < inject_Z n)%Q as HnQ
      by (change 0%Q with (inject_Z 0); by rewrite <- Zlt_Qlt).
  split.
  - apply Qle_shift_div_l; [exact HnQ|].
    rewrite <- inject_Z_mult, <- Zle_Qle. lia.
  - apply Qle_shift_div_r; [exact HnQ|].
    rewrite <- inject_Z_mult, <- Zle_Qle. lia.
Qed.

Lemma averageLatency_bounds_witness :
  (inject_Z 5 <= averageLatency [failedSample 5; failedSample 7])%Q
  /\ (averageLatency [failedSample 5; failedSample 7] <= inject_Z 7)%Q.
Proof.
  destruct (averageLatency_bounds [failedSample 5; failedSample 7] 5 7)
    as [_ H].
  apply H; [discriminate|].
  repeat constructor; cbn; lia.
Defined.
(* --------------------------------------------------------------------- *)
(** ** More on the circuit breaker                                        *)
(* --------------------------------------------------------------------- *)

Lemma check_half_open_step (now : Z) (b : CircuitBreaker) :
  cb_state b = HALF_OPEN ->
  check now b
  = if halfOpenMaxCalls (cb_config b) <=? halfOpenCalls b
    then Throws CircuitOpenError b
    else Normal tt (set_halfOpenCalls (halfOpenCalls b + 1) b).
Proof.
  intros Hhalf. unfold check, check_open, check_half_open.
  rewrite Hhalf. rewrite bool_decide_eq_false_2 by discriminate.
  rewrite Hhalf. by rewrite bool_decide_eq_true_2.
Qed.

Lemma checks_snoc (nows : list Z) (now : Z) (b : CircuitBreaker) :
  checks (nows ++ [now]) b = stateOf (check now (checks nows b)).
Proof. unfold checks, afterCalls. by rewrite fmap_app, foldl_app. Qed.

(** X9.  The probe limit.  On a HALF_OPEN breaker that has let through
    no more probes than [halfOpenMaxCalls], a [check] passes and counts
    one more probe while the count is below the limit, and throws
    [CircuitOpenError] and changes nothing once the limit is reached; so
    after any number of checks the breaker is still HALF_OPEN and the
    count is the smaller of the limit and the count it started from plus
    the number of checks made. *)
Theorem half_open_probe_limit (b : CircuitBreaker) :
  cb_state b = HALF_OPEN ->
  halfOpenCalls b <= halfOpenMaxCalls (cb_config b) ->
  (forall now,
      (halfOpenCalls b < halfOpenMaxCalls (cb_config b) ->
       check now b = Normal tt (set_halfOpenCalls (halfOpenCalls b + 1) b))
      /\ (halfOpenCalls b = halfOpenMaxCalls (cb_config b) ->
          check now b = Throws CircuitOpenError b))
  /\ (forall nows,
        checks nows b
        = set_halfOpenCalls
            (Z.min (halfOpenMaxCalls (cb_config b))
                   (halfOpenCalls b + Z.of_nat (length nows))) b).
Proof.
  intros Hhalf Hle. split.
  - intros now. rewrite (check_half_open_step now b Hhalf). split; intros H.
    + destruct (Z.leb_spec (halfOpenMaxCalls (cb_config b)) (halfOpenCalls b));
        [lia | reflexivity].
    + destruct (Z.leb_spec (halfOpenMaxCalls (cb_config b)) (halfOpenCalls b));
        [reflexivity | lia].
  - induction nows as [|now nows IH] using rev_ind.
    + cbn. rewrite Z.add_0_r, Z.min_r by lia. by destruct b.
    + rewrite checks_snoc, IH, length_app.
      rewrite check_half_open_step by exact Hhalf. cbn [length].
      cbn [cb_config set_halfOpenCalls halfOpenCalls].
      destruct (Z.leb_spec (halfOpenMaxCalls (cb_config b))
                  (Z.min (halfOpenMaxCalls (cb_config b))
                         (halfOpenCalls b + Z.of_nat (length nows))));
        cbn [stateOf]; unfold set_halfOpenCalls; cbn; f_equal; lia.
Qed.

(** A default breaker (one probe) that has just become HALF_OPEN: the
    first check passes, and after three checks one probe is counted. *)
Lemma half_open_probe_limit_witness :
  let b := set_cb_state HALF_OPEN (new_CircuitBreaker emptyBreakerConfig) in
  cb_state b = HALF_OPEN
  /\ halfOpenCalls b <= halfOpenMaxCalls (cb_config b)
  /\ check 5 b = Normal tt (set_halfOpenCalls 1 b)
  /\ checks [5; 6; 7] b = set_halfOpenCalls 1 b.
Proof.
  intros b.
  assert (cb_state b = HALF_OPEN) as H1 by reflexivity.
  assert (halfOpenCalls b <= halfOpenMaxCalls (cb_config b)) as H2 by (by vm_compute).
  destruct (half_open_probe_limit b H1 H2) as [Hstep Hmany].
  split; [exact H1|]. split; [exact H2|]. split.
  - apply (Hstep 5). by vm_compute.
  - apply (Hmany [5; 6; 7]).
Defined.


Lemma BreakerInv_afterCall (b : CircuitBreaker) (call : BreakerCall) :
  1 <= failureThreshold (cb_config b) ->
  BreakerInv b ->
  BreakerInv (afterCall b call)
  /\ cb_config (afterCall b call) = cb_config b.
Proof.
  intros Hth (Hf & Hh & Hclosed). unfold BreakerInv.
  destruct b as [s f h t cfg]. cbn in *.
  destruct call as [now| |now]; cbn [afterCall];
    unfold check, check_open, check_half_open, recordSuccess, recordFailure,
      set_halfOpenCalls, set_cb_state, set_failures, set_lastOpenedAt;
    cbn [cb_state failures halfOpenCalls lastOpenedAt cb_config];
    destruct s;
    repeat first
      [ rewrite bool_decide_eq_true_2 by reflexivity
      | rewrite bool_decide_eq_false_2 by discriminate ];
    cbn [cb_state failures halfOpenCalls lastOpenedAt cb_config stateOf];
    repeat match goal with
           | |- context [?a <=? ?b] => destruct (Z.leb_spec a b)
           end;
    repeat first
      [ rewrite bool_decide_eq_true_2 by reflexivity
      | rewrite bool_decide_eq_false_2 by discriminate ];
    cbn [cb_state failures halfOpenCalls lastOpenedAt cb_config stateOf];
    cbn [cb_state failures halfOpenCalls lastOpenedAt cb_config] in *;
    repeat split; try discriminate; try reflexivity; try lia;
    try (intros _; specialize (Hclosed eq_refl); lia).
Qed.

(** X10.  The breaker's invariant.  For a breaker built by the
    constructor with a failure threshold of at least one, whatever
    [check], [recordSuccess] and [recordFailure] calls follow: the
    configuration is the one it was built with, [failures] and
    [halfOpenCalls] are not negative, [halfOpenCalls] does not exceed
    [halfOpenMaxCalls] (0 when that is negative), and the breaker is
    CLOSED only with fewer failures than the threshold. *)
Theorem breaker_invariant (p : PartialCircuitBreakerConfig)
    (calls : list BreakerCall) :
  1 <= failureThreshold (mergeBreakerConfig p) ->
  let b := afterCalls calls (new_CircuitBreaker p) in
  cb_config b = mergeBreakerConfig p
  /\ 0 <= failures b
  /\ 0 <= halfOpenCalls b <= Z.max 0 (halfOpenMaxCalls (cb_config b))
  /\ (cb_state b = CLOSED -> failures b < failureThreshold (cb_config b)).
Proof.
  intros Hth b.
  assert (BreakerInv b /\ cb_config b = mergeBreakerConfig p) as [Hinv Hcfg].
  { subst b. induction calls as [|call calls IH] using rev_ind.
    - cbn [afterCalls foldl]. unfold afterCalls. cbn [foldl].
      split; [|reflexivity]. unfold BreakerInv, new_CircuitBreaker.
      cbn [failures halfOpenCalls cb_state cb_config]. repeat split; lia.
    - unfold afterCalls in *. rewrite foldl_app. cbn [foldl].
      destruct IH as [Hinv Hcfg].
      destruct (BreakerInv_afterCall _ call ltac:(by rewrite Hcfg) Hinv)
        as [Hinv' Hcfg'].
      split; [exact Hinv' | congruence]. }
  split; [exact Hcfg | exact Hinv].
Qed.

(** Five failures, a check after the reset timeout, a failed probe and a
    success that arrives while the breaker is OPEN. *)
Lemma breaker_invariant_witness :
  let b := afterCalls [CallRecordFailure 1; CallRecordFailure 2;
                       CallRecordFailure 3; CallRecordFailure 4;
                       CallRecordFailure 5; CallCheck 70000;
                       CallRecordFailure 70010; CallRecordSuccess]
                      (new_CircuitBreaker emptyBreakerConfig) in
  cb_state b = OPEN /\ 0 <= failures b /\ 0 <= halfOpenCalls b <= 1.
Proof.
  intros b.
  destruct (breaker_invariant emptyBreakerConfig
              [CallRecordFailure 1; CallRecordFailure 2;
               CallRecordFailure 3; CallRecordFailure 4;
               CallRecordFailure 5; CallCheck 70000;
               CallRecordFailure 70010; CallRecordSuccess]
              ltac:(by vm_compute)) as (_ & Hf & Hh & _).
  split; [reflexivity|]. split; [exact Hf | exact Hh].
Defined.

(** X11.  What [check] and [recordSuccess] leave alone.  [check] never
    changes [failures], [lastOpenedAt] or the configuration, throws
    nothing but [CircuitOpenError], and is a no-op on a CLOSED breaker; on
    an OPEN breaker whose reset timeout has not elapsed it throws and
    changes nothing.  [recordSuccess] does nothing to an OPEN breaker: a
    success that arrives late neither closes it nor clears its
    failures. *)
Theorem breaker_frames (b : CircuitBreaker) (now : Z) :
  failures (stateOf (check now b)) = failures b
  /\ lastOpenedAt (stateOf (check now b)) = lastOpenedAt b
  /\ cb_config (stateOf (check now b)) = cb_config b
  /\ (thrown (check now b) = None \/ thrown (check now b) = Some CircuitOpenError)
  /\ (cb_state b = CLOSED -> check now b = Normal tt b)
  /\ (cb_state b = OPEN -> now - lastOpenedAt b < resetTimeoutMs (cb_config b) ->
      check now b = Throws CircuitOpenError b)
  /\ (cb_state b = OPEN -> recordSuccess b = b).
Proof.
  destruct b as [s f h t cfg].
  unfold check, check_open, check_half_open, recordSuccess,
    set_halfOpenCalls, set_cb_state, set_failures.
  cbn [cb_state failures halfOpenCalls lastOpenedAt cb_config].
  destruct s;
    repeat first
      [ rewrite bool_decide_eq_true_2 by reflexivity
      | rewrite bool_decide_eq_false_2 by discriminate ];
    cbn [cb_state failures halfOpenCalls lastOpenedAt cb_config stateOf];
    repeat match goal with
           | |- context [?a <=? ?b] => destruct (Z.leb_spec a b)
           end;
    repeat first
      [ rewrite bool_decide_eq_true_2 by reflexivity
      | rewrite bool_decide_eq_false_2 by discriminate ];
    cbn [cb_state failures halfOpenCalls lastOpenedAt cb_config stateOf thrown];
    repeat split; try discriminate; try reflexivity;
    try (by left); try (by right); try (intros; lia).
Qed.
(* --------------------------------------------------------------------- *)
(** ** More on the request engine                                         *)
(* --------------------------------------------------------------------- *)

Section EngineMore.
Context `{RT : Runtime}.

(** [_executeWithRetry] is its loop, run from the state [started st],
    followed by the exit of the loop. *)
Lemma executeWithRetry_loop (c : StrontiumClient) (w : World)
    (requestId method url : string) (body : option JsValue)
    (hdrs : gmap string string) (schema : option Validator)
    (timeoutMs : Z) (options : RequestOptions) (st : Engine) :
  executeWithRetry c w requestId method url body hdrs schema timeoutMs options st
  = match attemptLoop c w requestId method url body hdrs schema timeoutMs
                      options (seqZ 1 (maxAttempts (retryConfig c)))
                      (started st) with
    | Normal (Some result) st' => Normal result st'
    | Normal None st' => afterLoop c st'
    | Throws e st' => Throws e st'
    end.
Proof.
  unfold executeWithRetry, started, afterLoop.
  unfold bind, modify, machine_transition, emit, modify, get, throw, ret,
    set_machine, set_lastError, set_trace, new_StateMachine.
  engine_cbn. cbn [app].
  destruct (attemptLoop _ _ _ _ _ _ _ _ _ _ _ _) as [[result|] st'|e st'];
    try reflexivity.
  destruct (transition ERROR (machine st')); [|reflexivity].
  engine_cbn. by destruct (maxAttempts (retryConfig c) <=? 1).
Qed.

Lemma executeWithRetry_first_attempt (c : StrontiumClient) (w : World)
    (requestId method url : string) (body : option JsValue)
    (hdrs : gmap string string) (schema : option Validator)
    (timeoutMs : Z) (options : RequestOptions) (st : Engine)
    (e : JsError) (st' : Engine) :
  1 <= maxAttempts (retryConfig c) ->
  attemptBody c w requestId method url body hdrs schema timeoutMs options 1
              (started st)
  = Throws e st' ->
  executeWithRetry c w requestId method url body hdrs schema timeoutMs options st
  = Throws e st'.
Proof.
  intros Hmax Hbody. rewrite executeWithRetry_loop.
  rewrite seqZ_cons by lia. cbn [attemptLoop]. unfold bind at 1.
  by rewrite Hbody.
Qed.

(** X12.  Rejections before the transport.  In a request of at least one
    attempt: when 100 attempts or more are in flight the call throws the
    network error [Max concurrent requests exceeded] before the breaker,
    any hook or the transport is called, and the machine stays PENDING;
    otherwise, when the breaker's [check] throws, the call fires
    [onCircuitOpen], moves to ERROR and rethrows without calling the
    transport, and the breaker is as [check] left it. *)
Theorem rejected_before_transport (c : StrontiumClient) (w : World)
    (requestId method url : string) (body : option JsValue)
    (hdrs : gmap string string) (schema : option Validator)
    (timeoutMs : Z) (options : RequestOptions) (st : Engine) :
  1 <= maxAttempts (retryConfig c) ->
  let run := executeWithRetry c w requestId method url body hdrs schema
                              timeoutMs options st in
  (MAX_CONCURRENT_REQUESTS <= inFlight st ->
     thrown run = Some (NetworkError "Max concurrent requests exceeded")
     /\ trace (stateOf run) = [EvTransition PENDING]
     /\ machine (stateOf run) = PENDING
     /\ circuitBreaker (stateOf run) = circuitBreaker st
     /\ inFlight (stateOf run) = inFlight st)
  /\ (forall e b',
        inFlight st < MAX_CONCURRENT_REQUESTS ->
        check (now_check (attemptWorld w 1)) (circuitBreaker st) = Throws e b' ->
        thrown run = Some CircuitOpenError
        /\ trace (stateOf run)
           = [EvTransition PENDING; EvCheck; EvHook onCircuitOpen 1;
              EvTransition ERROR]
        /\ machine (stateOf run) = ERROR
        /\ circuitBreaker (stateOf run) = b'
        /\ metrics (stateOf run) = metrics st
        /\ inFlight (stateOf run) = inFlight st).
Proof.
  intros Hmax run. split.
  - intros Hcap. subst run.
    erewrite executeWithRetry_first_attempt; [|exact Hmax|].
    2:{ unfold started. engine_unfold. engine_cbn.
        destruct (Z.leb_spec MAX_CONCURRENT_REQUESTS (inFlight st));
          [reflexivity | lia]. }
    by repeat split.
  - intros e b' Hcap Hcheck. subst run.
    pose proof (check_throws _ _ _ _ Hcheck) as ->.
    erewrite executeWithRetry_first_attempt; [|exact Hmax|].
    2:{ unfold started. engine_unfold. engine_cbn.
        destruct (Z.leb_spec MAX_CONCURRENT_REQUESTS (inFlight st)); [lia|].
        engine_cbn. rewrite Hcheck. engine_cbn. reflexivity. }
    by repeat split.
Qed.

End EngineMore.

Lemma rejected_before_transport_witness :
  let w := demoWorld (respondsWith 200 "{}") in
  let cfg := demoConfig None (Some opensAtOnce) None in
  let run := executeWithRetry (new_StrontiumClient w cfg) w "req_1" "GET"
               "https://api.example.com/users/1" None ∅ None 30000
               (demoOptions GET "/users/1" None) engineWithOpenBreaker in
  thrown run = Some CircuitOpenError
  /\ fetchCalls (trace (stateOf run)) = 0%nat
  /\ machine (stateOf run) = ERROR.
Proof.
  intros w cfg run.
  destruct (rejected_before_transport (new_StrontiumClient w cfg) w "req_1" "GET"
              "https://api.example.com/users/1" None ∅ None 30000
              (demoOptions GET "/users/1" None) engineWithOpenBreaker
              ltac:(by vm_compute)) as [_ Hopen].
  destruct (Hopen CircuitOpenError (circuitBreaker engineWithOpenBreaker)
              ltac:(by vm_compute) ltac:(by vm_compute))
    as (Hthrown & Htrace & Hmachine & _).
  split; [exact Hthrown|]. split; [|exact Hmachine].
  assert (trace (stateOf run)
          = [EvTransition PENDING; EvCheck; EvHook onCircuitOpen 1;
             EvTransition ERROR]) as -> by exact Htrace.
  reflexivity.
Defined.

Section Cancellation.
Context `{RT : Runtime}.


End Cancellation.

(* --------------------------------------------------------------------- *)
(** ** What one attempt may touch                                         *)
(* --------------------------------------------------------------------- *)

Lemma fetchCalls_app (l1 l2 : list Event) :
  fetchCalls (l1 ++ l2) = (fetchCalls l1 + fetchCalls l2)%nat.
Proof. unfold fetchCalls. by rewrite List.filter_app, length_app. Qed.

Lemma hookCalls_app (h : HookName) (l1 l2 : list Event) :
  hookCalls h (l1 ++ l2) = (hookCalls h l1 + hookCalls h l2)%nat.
Proof. unfold hookCalls. by rewrite List.filter_app, length_app. Qed.

Section AttemptEffects.
Context `{RT : Runtime}.

(** One turn of the loop, entered with the machine in PENDING: the
    dedupe map is left alone; so is the idempotency registry in standard
    mode; a turn that ends in [continue] leaves the machine in PENDING and
    is not the last one; and the calls it adds to the log hold at most one
    transport call, which comes after an [onBeforeRequest], and at most
    one [onRetry], which comes after a transport call in a turn that is
    not the last. *)
Lemma attemptBody_effects (c : StrontiumClient) (w : World)
    (requestId method url : string) (body : option JsValue)
    (hdrs : gmap string string) (schema : option Validator)
    (timeoutMs : Z) (options : RequestOptions) (attempt : Z) (st : Engine) :
  machine st = PENDING ->
  let out := attemptBody c w requestId method url body hdrs schema timeoutMs
                         options attempt st in
  dedupeMap (stateOf out) = dedupeMap st
  /\ match out with
     | Normal Continue st' =>
         machine st' = PENDING /\ attempt < maxAttempts (retryConfig c)
     | _ => True
     end
  /\ exists delta,
       trace (stateOf out) = trace st ++ delta
       /\ (fetchCalls delta <= hookCalls onBeforeRequest delta)%nat
       /\ (hookCalls onBeforeRequest delta <= 1)%nat
       /\ (hookCalls onRetry delta <= fetchCalls delta)%nat
       /\ (hookCalls onRetry delta <= 1)%nat
       /\ (hookCalls onRetry delta = 1%nat
           -> attempt < maxAttempts (retryConfig c)).
Proof.
  destruct st as [cb dm me inf hashes m le sc tr].
  cbn [machine]. intros ->. cbv zeta.
  engine_unfold. engine_cbn.
  destruct (MAX_CONCURRENT_REQUESTS <=? inf); engine_cbn;
    [|match goal with
      | |- context [check ?now cb] =>
          destruct (check now cb) as [[] cb'|e cb'] eqn:Hcheck; engine_cbn;
          [repeat (engine_case; engine_cbn)|]
      end].
  all: cbn [stateOf dedupeMap machine trace].
  all: repeat match goal with
         | H : _ && (_ <? _) = true |- _ => apply andb_prop in H as [_ H]
         end.
  all: split; [reflexivity|].
  all: split; [first [exact I | split; [reflexivity | by apply Z.ltb_lt]]|].
  all: eexists; split;
    [rewrite <- ?app_assoc; first [reflexivity | symmetry; apply app_nil_r]|].
  all: cbn [app fetchCalls hookCalls List.filter isFetch isHook HookName_eqb
            length].
  all: split; [lia|]. all: split; [lia|]. all: split; [lia|].
  all: split; [lia|].
  all: first [intros _; by apply Z.ltb_lt | intros ?; discriminate].
Qed.

(** The loop, one turn at a time. *)
Lemma attemptLoop_cons (c : StrontiumClient) (w : World)
    (requestId method url : string) (body : option JsValue)
    (hdrs : gmap string string) (schema : option Validator)
    (timeoutMs : Z) (options : RequestOptions) (attempt : Z) (rest : list Z)
    (st : Engine) :
  attemptLoop c w requestId method url body hdrs schema timeoutMs options
              (attempt :: rest) st
  = match attemptBody c w requestId method url body hdrs schema timeoutMs
                      options attempt st with
    | Normal Continue st' =>
        attemptLoop c w requestId method url body hdrs schema timeoutMs
                    options rest st'
    | Normal Break st' => Normal None st'
    | Normal (Return result) st' => Normal (Some result) st'
    | Throws e st' => Throws e st'
    end.
Proof.
  cbn [attemptLoop]. unfold bind.
  by destruct (attemptBody _ _ _ _ _ _ _ _ _ _ _ _) as [[| |result] st'|e st'].
Qed.

(** The same for the turns [a], [a + 1], ... up to [maxAttempts]. *)
Lemma attemptLoop_effects (c : StrontiumClient) (w : World)
    (requestId method url : string) (body : option JsValue)
    (hdrs : gmap string string) (schema : option Validator)
    (timeoutMs : Z) (options : RequestOptions) (n : nat) (a : Z) (st : Engine) :
  machine st = PENDING ->
  a + Z.of_nat n = maxAttempts (retryConfig c) + 1 ->
  let out := attemptLoop c w requestId method url body hdrs schema timeoutMs
                         options (seqZ a (Z.of_nat n)) st in
  dedupeMap (stateOf out) = dedupeMap st
  /\ exists delta,
       trace (stateOf out) = trace st ++ delta
       /\ (fetchCalls delta <= hookCalls onBeforeRequest delta)%nat
       /\ (hookCalls onBeforeRequest delta <= n)%nat
       /\ (hookCalls onRetry delta <= fetchCalls delta)%nat
       /\ (hookCalls onRetry delta <= n - 1)%nat.
Proof.
  revert a st. induction n as [|n IH]; intros a st Hpending Hlast out.
  - subst out. rewrite seqZ_nil by lia. cbn. split; [reflexivity|].
    exists []. rewrite app_nil_r. by repeat split.
  - subst out. rewrite seqZ_cons by lia. rewrite attemptLoop_cons.
    destruct (attemptBody_effects c w requestId method url body hdrs schema
                timeoutMs options a st Hpending)
      as (Hmap & Hcontinue & delta & Htrace & Hfetch & Hbefore & Hretry
          & Hone & Hnotlast).
    destruct (attemptBody c w requestId method url body hdrs schema timeoutMs
                options a st) as [[| |result] st'|e st'];
      cbn [stateOf] in Hmap, Htrace; cbv beta iota.
    + destruct Hcontinue as [Hpending' Hlt].
      replace (Z.pred (Z.of_nat (S n))) with (Z.of_nat n) by lia.
      destruct (IH (Z.succ a) st' Hpending' ltac:(lia))
        as (Hmap' & delta' & Htrace' & Hfetch' & Hbefore' & Hretry' & Hbudget).
      split; [by rewrite Hmap', Hmap|].
      exists (delta ++ delta').
      rewrite Htrace', Htrace, <- app_assoc, !fetchCalls_app, !hookCalls_app.
      split; [reflexivity|]. repeat split; lia.
    + cbn [stateOf]. split; [exact Hmap|].
      exists delta. split; [exact Htrace|].
      assert (hookCalls onRetry delta <= n)%nat as Hbudget.
      { destruct (decide (hookCalls onRetry delta = 1%nat)) as [Heq|]; [|lia].
        specialize (Hnotlast Heq). lia. }
      repeat split; lia.
    + cbn [stateOf]. split; [exact Hmap|].
      exists delta. split; [exact Htrace|].
      assert (hookCalls onRetry delta <= n)%nat as Hbudget.
      { destruct (decide (hookCalls onRetry delta = 1%nat)) as [Heq|]; [|lia].
        specialize (Hnotlast Heq). lia. }
      repeat split; lia.
    + cbn [stateOf]. split; [exact Hmap|].
      exists delta. split; [exact Htrace|].
      assert (hookCalls onRetry delta <= n)%nat as Hbudget.
      { destruct (decide (hookCalls onRetry delta = 1%nat)) as [Heq|]; [|lia].
        specialize (Hnotlast Heq). lia. }
      repeat split; lia.
Qed.

(** X14.  A request calls [fetch] at most [maxAttempts] times and never
    more often than [onBeforeRequest] has fired; [onRetry] fires at most
    [maxAttempts - 1] times and never more often than [fetch] has been
    called. *)
Theorem transport_calls_bounded (c : StrontiumClient) (w : World)
    (requestId method url : string) (body : option JsValue)
    (hdrs : gmap string string) (schema : option Validator)
    (timeoutMs : Z) (options : RequestOptions) (st : Engine) :
  let run := executeWithRetry c w requestId method url body hdrs schema
                              timeoutMs options st in
  let calls := trace (stateOf run) in
  (fetchCalls calls <= hookCalls onBeforeRequest calls)%nat
  /\ Z.of_nat (hookCalls onBeforeRequest calls)
     <= Z.max 0 (maxAttempts (retryConfig c))
  /\ (hookCalls onRetry calls <= fetchCalls calls)%nat
  /\ Z.of_nat (hookCalls onRetry calls)
     <= Z.max 0 (maxAttempts (retryConfig c) - 1).
Proof.
  intros run calls. subst calls run. rewrite executeWithRetry_loop.
  set (max := maxAttempts (retryConfig c)).
  replace (seqZ 1 max) with (seqZ 1 (Z.of_nat (Z.to_nat max)))
    by (destruct (Z.le_gt_cases 0 max);
        [by rewrite Z2Nat.id | by rewrite !seqZ_nil by lia]).
  destruct (Z.le_gt_cases 1 max) as [Hmax|Hmax].
  - destruct (attemptLoop_effects c w requestId method url body hdrs schema
                timeoutMs options (Z.to_nat max) 1 (started st) eq_refl
                ltac:(fold max; lia))
      as (_ & delta & Htrace & Hfetch & Hbefore & Hretry & Hbudget).
    assert (forall tail,
              fetchCalls tail = 0%nat -> hookCalls onBeforeRequest tail = 0%nat ->
              hookCalls onRetry tail = 0%nat ->
              let calls := ([EvTransition PENDING] ++ delta) ++ tail in
              (fetchCalls calls <= hookCalls onBeforeRequest calls)%nat
              /\ Z.of_nat (hookCalls onBeforeRequest calls) <= Z.max 0 max
              /\ (hookCalls onRetry calls <= fetchCalls calls)%nat
              /\ Z.of_nat (hookCalls onRetry calls) <= Z.max 0 (max - 1))
      as Hcount.
    { intros tail H1 H2 H3 calls. subst calls.
      rewrite !fetchCalls_app, !hookCalls_app, H1, H2, H3.
      cbn [fetchCalls hookCalls List.filter isFetch isHook length].
      repeat split; lia. }
    destruct (attemptLoop _ _ _ _ _ _ _ _ _ _ _ _) as [[result|] st'|e st'];
      cbn [stateOf] in Htrace; cbn [started trace] in Htrace.
    + cbn [stateOf]. rewrite Htrace, <- (app_nil_r (_ ++ delta)).
      by apply Hcount.
    + unfold afterLoop.
      destruct (transition ERROR (machine st')).
      * destruct (_ <=? 1); cbn [stateOf set_trace trace];
          rewrite Htrace; by apply Hcount.
      * cbn [stateOf]. rewrite Htrace, <- (app_nil_r (_ ++ delta)).
        by apply Hcount.
    + cbn [stateOf]. rewrite Htrace, <- (app_nil_r (_ ++ delta)).
      by apply Hcount.
  - rewrite seqZ_nil by lia. cbn [attemptLoop]. unfold ret, afterLoop, started.
    cbn [machine transition ALLOWED_TRANSITIONS includes existsb
         RequestState_eqb orb].
    destruct (_ <=? 1); cbn; lia.
Qed.

End AttemptEffects.
(* --------------------------------------------------------------------- *)
(** ** The dedupe map across a request                                    *)
(* --------------------------------------------------------------------- *)

Lemma Map_set_fresh (key : string) (p : PromiseId) (m : DedupeMap) :
  Map_get key m = None -> Map_set key p m = m ++ [(key, p)].
Proof.
  induction m as [|[k q] m IH]; [reflexivity|]. cbn.
  case_bool_decide; [discriminate|]. intros Hfree. by rewrite IH.
Qed.

Lemma Map_delete_fresh (key : string) (m : DedupeMap) :
  Map_get key m = None -> Map_delete key m = m.
Proof.
  induction m as [|[k q] m IH]; [reflexivity|].
  unfold Map_delete, DedupeMap in *. cbn [Map_get].
  case_bool_decide as Hk; [discriminate|]. intros Hfree.
  rewrite filter_cons. rewrite decide_True by exact Hk. by rewrite IH.
Qed.

Lemma Map_delete_set_fresh (key : string) (p : PromiseId) (m : DedupeMap) :
  Map_get key m = None -> Map_delete key (Map_set key p m) = m.
Proof.
  intros Hfree. rewrite Map_set_fresh by exact Hfree.
  pose proof (Map_delete_fresh key m Hfree) as Hsame.
  unfold Map_delete, DedupeMap in *. rewrite filter_app, Hsame.
  rewrite filter_cons. rewrite decide_False by (intros Hne; by apply Hne).
  by rewrite filter_nil, app_nil_r.
Qed.

Section DedupeAcrossRequest.
Context `{RT : Runtime}.

(** [_executeWithRetry] never touches the dedupe map. *)
Lemma executeWithRetry_dedupeMap (c : StrontiumClient) (w : World)
    (requestId method url : string) (body : option JsValue)
    (hdrs : gmap string string) (schema : option Validator)
    (timeoutMs : Z) (options : RequestOptions) (st : Engine) :
  dedupeMap (stateOf (executeWithRetry c w requestId method url body hdrs
                                       schema timeoutMs options st))
  = dedupeMap st.
Proof.
  rewrite executeWithRetry_loop.
  set (max := maxAttempts (retryConfig c)).
  assert (dedupeMap (stateOf (attemptLoop c w requestId method url body hdrs
                                schema timeoutMs options (seqZ 1 max)
                                (started st)))
          = dedupeMap st) as Hloop.
  { destruct (Z.le_gt_cases 1 max) as [Hmax|Hmax].
    - rewrite <- (Z2Nat.id max) by lia.
      destruct (attemptLoop_effects c w requestId method url body hdrs schema
                  timeoutMs options (Z.to_nat max) 1 (started st) eq_refl
                  ltac:(fold max; lia)) as [Hmap _].
      exact Hmap.
    - by rewrite seqZ_nil by lia. }
  destruct (attemptLoop _ _ _ _ _ _ _ _ _ _ _ _) as [[result|] st'|e st'];
    cbn [stateOf] in Hloop; [exact Hloop| |exact Hloop].
  unfold afterLoop.
  destruct (transition ERROR (machine st')); [|exact Hloop].
  by destruct (_ <=? 1).
Qed.

(** X15.  A request gives the dedupe map back as it found it.  When the
    request's key has no pending entry and the map is not full, the call
    starts an execution; while its promise is pending the map is the old
    one, with the key's entry appended when the request deduplicates; and
    once the promise has settled, either way, and no other request has
    touched the map in between, the map is the old one again. *)
Theorem request_restores_dedupeMap (c : StrontiumClient) (w : World)
    (options : RequestOptions) (st : Engine) :
  dedupe_get (dedupeKeyOf c options) (dedupeMap st) = None ->
  Z.of_nat (length (dedupeMap st)) < MAX_DEDUPE_MAP_SIZE ->
  exists completion,
    request c w options st
    = Ran (promise_gen w)
          (if dedupeApplies c options
           then dedupeMap st ++ [(dedupeKeyOf c options, promise_gen w)]
           else dedupeMap st)
          completion
    /\ dedupeMap (stateOf completion) = dedupeMap st.
Proof.
  intros Hfree Hroom. unfold request.
  destruct (dedupeApplies c options).
  - fold (dedupeKeyOf c options). rewrite Hfree.
    eexists. split.
    + f_equal. unfold dedupe_set.
      destruct (Z.leb_spec MAX_DEDUPE_MAP_SIZE (Z.of_nat (length (dedupeMap st))));
        [lia|].
      by apply Map_set_fresh.
    + match goal with
      | |- dedupeMap (stateOf (onState _ ?run)) = _ =>
          pose proof (executeWithRetry_dedupeMap c w (requestId_gen w)
                        (methodName (o_method options)) (fullUrl c options)
                        (o_body options) (default ∅ (o_headers options))
                        (o_schema options)
                        (default (timeoutMs (config c)) (o_timeoutMs options))
                        options
                        (set_dedupeMap
                           (dedupe_set (dedupeKeyOf c options) (promise_gen w)
                                       (dedupeMap st)) st)) as Hframe;
          destruct run as [result st'|e st']
      end.
      all: cbn [onState stateOf set_dedupeMap dedupeMap] in *.
      all: rewrite Hframe; unfold dedupe_settled, dedupe_set.
      all: destruct (Z.leb_spec MAX_DEDUPE_MAP_SIZE
                       (Z.of_nat (length (dedupeMap st)))); [lia|].
      all: by apply Map_delete_set_fresh.
  - eexists. split; [reflexivity|]. apply executeWithRetry_dedupeMap.
Qed.

End DedupeAcrossRequest.

Lemma request_restores_dedupeMap_witness :
  let w := demoWorld (respondsWith 200 "{}") in
  let cfg := demoConfig (Some singleAttempt) None None in
  let c := new_StrontiumClient w cfg in
  let options := demoOptions GET "/users/1" None in
  let st := new_Engine cfg (∅ : gmap string string) in
  exists completion,
    request c w options st
    = Ran 1%nat [(dedupeKeyOf c options, 1%nat)] completion
    /\ dedupeMap (stateOf completion) = [].
Proof.
  intros w cfg c options st.
  destruct (request_restores_dedupeMap c w options st eq_refl
              ltac:(by vm_compute)) as (completion & Hrun & Hmap).
  exists completion. split; [exact Hrun | exact Hmap].
Defined.
(* --------------------------------------------------------------------- *)
(** ** What a returned response stands for                                *)
(* --------------------------------------------------------------------- *)




Section Returned.
Context `{RT : Runtime}.




End Returned.

(* --------------------------------------------------------------------- *)
(** ** Retries until the attempts are used up                             *)
(* --------------------------------------------------------------------- *)



Section Exhaustion.
Context `{RT : Runtime}.




End Exhaustion.

(* --------------------------------------------------------------------- *)
(** ** What goes out with an attempt                                      *)
(* --------------------------------------------------------------------- *)

Section Outbound.
Context `{RT : Runtime}.

(** The headers of an attempt before the idempotency block: the
    request's own, then the client's, then the two the engine supplies. *)
Lemma composeHeaders_lookup (c : StrontiumClient) (requestId : string)
    (hdrs : gmap string string) (k : string) :
  composeHeaders c requestId hdrs !! k
  = match hdrs !! k with
    | Some v => Some v
    | None =>
        match headers (config c) !! k with
        | Some v => Some v
        | None =>
            if bool_decide (k = "X-Request-Id") then Some requestId
            else if bool_decide (k = "Content-Type")
                 then Some "application/json"
                 else None
        end
    end.
Proof.
  unfold composeHeaders. rewrite !lookup_union.
  assert ((<["X-Request-Id" := requestId]>
             ({["Content-Type" := "application/json"]} : gmap string string))
            !! k
          = if bool_decide (k = "X-Request-Id") then Some requestId
            else if bool_decide (k = "Content-Type")
                 then Some "application/json"
                 else None) as ->.
  { case_bool_decide as Hid; [subst k; by rewrite lookup_insert_eq|].
    rewrite lookup_insert_ne by congruence.
    case_bool_decide as Hct; [subst k; by rewrite lookup_singleton_eq|].
    by rewrite lookup_singleton_ne by congruence. }
  by destruct (hdrs !! k), (headers (config c) !! k),
       (if bool_decide _ then _ else _).
Qed.

(** X18.  What goes out with an attempt.  When an attempt reaches the
    transport, the call carries the request's url and method; no body for
    GET and HEAD, and the JSON text of the body, if there is one, for
    every other method.  A header of the request wins over the client's
    header of that name, which wins over the engine's [X-Request-Id] and
    [Content-Type].  In standard mode these are all the headers and the
    idempotency registry is not touched.  In idempotent mode
    [Idempotency-Key] is the request's key, or a generated one, whatever
    the request's and the client's headers say; with a body,
    [X-Payload-Hash] is the fingerprint of the body and the registry pins
    the key to it; every other header is as in standard mode. *)
Theorem outbound_request (c : StrontiumClient) (w : World)
    (requestId method url : string) (body : option JsValue)
    (hdrs : gmap string string) (options : RequestOptions) (attempt : Z)
    (st st1 : Engine) (req : TransportRequest) :
  prepareAttempt c w requestId method url body hdrs options attempt st
  = Normal req st1 ->
  let idemKey := default (idempotencyKey_gen (attemptWorld w attempt))
                         (o_idempotencyKey options) in
  let composed := composeHeaders c requestId hdrs in
  tr_url req = url
  /\ tr_method req = method
  /\ (method = "GET" \/ method = "HEAD" -> tr_body req = None)
  /\ (method <> "GET" -> method <> "HEAD" ->
        tr_body req = JSON_stringify <$> body)
  /\ (forall k v, hdrs !! k = Some v -> composed !! k = Some v)
  /\ (forall k v, hdrs !! k = None -> headers (config c) !! k = Some v ->
        composed !! k = Some v)
  /\ (hdrs !! "X-Request-Id" = None ->
      headers (config c) !! "X-Request-Id" = None ->
        composed !! "X-Request-Id" = Some requestId)
  /\ (protocolMode (config c) = standard ->
        tr_headers req = composed
        /\ idempotencyKeyHashes st1 = idempotencyKeyHashes st)
  /\ (protocolMode (config c) = idempotent ->
        tr_headers req !! "Idempotency-Key" = Some idemKey
        /\ (body <> None ->
              tr_headers req !! "X-Payload-Hash" = Some (computePayloadHash body)
              /\ idempotencyKeyHashes st1 !! idemKey
                 = Some (computePayloadHash body))
        /\ (forall k, k <> "Idempotency-Key" ->
              k <> "X-Payload-Hash" \/ body = None ->
              tr_headers req !! k = composed !! k)).
Proof.
  intros Hprep idemKey composed.
  assert (exists requestHeaders,
            req = transportRequest method url body requestHeaders
            /\ (protocolMode (config c) = standard ->
                  requestHeaders = composed
                  /\ idempotencyKeyHashes st1 = idempotencyKeyHashes st)
            /\ (protocolMode (config c) = idempotent ->
                  (body = None /\ requestHeaders
                                  = <["Idempotency-Key" := idemKey]> composed)
                  \/ (body <> None
                      /\ requestHeaders
                         = <["X-Payload-Hash" := computePayloadHash body]>
                             (<["Idempotency-Key" := idemKey]> composed)
                      /\ idempotencyKeyHashes st1 !! idemKey
                         = Some (computePayloadHash body))))
    as (requestHeaders & -> & Hstandard & Hidempotent).
  { revert Hprep. destruct st as [cb dm me inf hashes m le sc tr].
    engine_unfold. engine_cbn.
    destruct (MAX_CONCURRENT_REQUESTS <=? inf); engine_cbn; [discriminate|].
    match goal with
    | |- context [check ?now cb] =>
        destruct (check now cb) as [[] cb'|e cb']; engine_cbn;
        [|repeat (engine_case; engine_cbn); discriminate]
    end.
    destruct (protocolMode (config c));
      [rewrite bool_decide_eq_false_2 by discriminate
      |rewrite bool_decide_eq_true_2 by reflexivity]; engine_cbn.
    - intros [= <- <-]. eexists. split; [reflexivity|].
      split; [by split | discriminate].
    - destruct body as [b|].
      + destruct (enforceIntegrity _ _ _) as [hash h|e h] eqn:Hintegrity;
          engine_cbn; [|discriminate].
        intros [= <- <-]. eexists. split; [reflexivity|].
        split; [discriminate|]. intros _. right.
        unfold enforceIntegrity in Hintegrity.
        case_bool_decide; [discriminate|].
        injection Hintegrity as <- <-. cbn [idempotencyKeyHashes].
        split; [discriminate|]. split; [reflexivity|].
        by rewrite lookup_insert_eq.
      + intros [= <- <-]. eexists. split; [reflexivity|].
        split; [discriminate|]. intros _. by left. }
  unfold transportRequest. cbn [tr_url tr_method tr_body tr_headers].
  split; [reflexivity|]. split; [reflexivity|].
  split.
  { intros [-> | ->].
    - by rewrite (bool_decide_eq_false_2 ("GET" <> "GET")), andb_false_r
        by (intros Hne; by apply Hne).
    - by rewrite (bool_decide_eq_false_2 ("HEAD" <> "HEAD")), andb_false_r
        by (intros Hne; by apply Hne). }
  split.
  { intros Hget Hhead. rewrite !(bool_decide_eq_true_2 (method <> _)) by done.
    rewrite !andb_true_r. by destruct body. }
  split.
  { intros k v Hk. subst composed. by rewrite composeHeaders_lookup, Hk. }
  split.
  { intros k v Hk Hclient. subst composed.
    by rewrite composeHeaders_lookup, Hk, Hclient. }
  split.
  { intros Hk Hclient. subst composed.
    by rewrite composeHeaders_lookup, Hk, Hclient. }
  split; [exact Hstandard|].
  intros Hmode.
  destruct (Hidempotent Hmode) as [[-> ->] | (Hbody & -> & Hpinned)].
  - split; [by rewrite lookup_insert_eq|].
    split; [intros Hne; by destruct Hne|].
    intros k Hkey _. by rewrite lookup_insert_ne by congruence.
  - split; [by rewrite lookup_insert_ne, lookup_insert_eq by discriminate|].
    split; [intros _; split; [by rewrite lookup_insert_eq | exact Hpinned]|].
    intros k Hkey [Hhash | Hnone]; [|congruence].
    by rewrite !lookup_insert_ne by congruence.
Qed.

End Outbound.

(** A POST with a body in idempotent mode whose own headers name another
    idempotency key. *)
Lemma outbound_request_witness :
  let w := demoWorld (respondsWith 200 "{}") in
  let cfg : @StrontiumClientConfig demoRuntime :=
    {| cfg_baseURL := "https://api.example.com"; cfg_retry := None;
       cfg_circuitBreaker := None; cfg_timeoutMs := None; cfg_dedupe := None;
       cfg_protocolMode := Some idempotent; cfg_mode := None;
       cfg_transport := None; cfg_headers := None |} in
  let options : @RequestOptions demoRuntime :=
    {| o_method := POST; o_url := "/orders";
       o_body := Some ("{}" : @JsValue demoRuntime);
       o_headers := Some {["Idempotency-Key" := "mine"]};
       o_schema := None; o_signal := false; o_idempotencyKey := Some "order-1";
       o_timeoutMs := None |} in
  exists req st1,
    prepareAttempt (new_StrontiumClient w cfg) w "req_1" "POST"
      "https://api.example.com/orders" (Some ("{}" : @JsValue demoRuntime))
      {["Idempotency-Key" := "mine"]} options 1
      (started (new_Engine cfg (∅ : gmap string string)))
    = Normal req st1
    /\ tr_body req = Some "{}"
    /\ tr_headers req !! "Idempotency-Key" = Some "order-1"
    /\ tr_headers req !! "X-Payload-Hash" = Some "sha256:{}".
Proof.
  intros w cfg options.
  destruct (prepareAttempt (new_StrontiumClient w cfg) w "req_1" "POST"
              "https://api.example.com/orders"
              (Some ("{}" : @JsValue demoRuntime))
              {["Idempotency-Key" := "mine"]} options 1
              (started (new_Engine cfg (∅ : gmap string string))))
    as [req st1|e st1] eqn:Hprep; [|vm_compute in Hprep; discriminate Hprep].
  exists req, st1. split; [reflexivity|].
  destruct (outbound_request _ _ _ _ _ _ _ _ _ _ _ _ Hprep)
    as (_ & _ & _ & Hbody & _ & _ & _ & _ & Hidempotent).
  destruct (Hidempotent eq_refl) as (Hkey & Hhash & _).
  split; [by apply Hbody|]. split; [exact Hkey|].
  by apply Hhash.
Defined.
(* --------------------------------------------------------------------- *)
(** ** Performance mode, and the constructor's defaults                   *)
(* --------------------------------------------------------------------- *)

Section Modes.
Context `{RT : Runtime}.

Lemma attemptBody_performance (c : StrontiumClient) (w : World)
    (requestId method url : string) (body : option JsValue)
    (hdrs : gmap string string) (schema : option Validator)
    (timeoutMs : Z) (options : RequestOptions) (attempt : Z) :
  mode (config c) = performance ->
  attemptBody c w requestId method url body hdrs schema timeoutMs options attempt
  = attemptBody c w requestId method url body hdrs None timeoutMs options attempt.
Proof.
  intros Hmode. destruct schema as [sch|]; [|reflexivity].
  unfold attemptBody, transportPhase, tryBlock, validate.
  rewrite Hmode. rewrite bool_decide_eq_false_2 by discriminate.
  reflexivity.
Qed.

Lemma attemptLoop_performance (c : StrontiumClient) (w : World)
    (requestId method url : string) (body : option JsValue)
    (hdrs : gmap string string) (schema : option Validator)
    (timeoutMs : Z) (options : RequestOptions) (attempts : list Z) :
  mode (config c) = performance ->
  attemptLoop c w requestId method url body hdrs schema timeoutMs options attempts
  = attemptLoop c w requestId method url body hdrs None timeoutMs options attempts.
Proof.
  intros Hmode. induction attempts as [|attempt rest IH]; [reflexivity|].
  cbn [attemptLoop]. rewrite IH.
  by rewrite (attemptBody_performance c w requestId method url body hdrs schema
                timeoutMs options attempt Hmode).
Qed.

(** X19.  Performance mode never looks at the schema: a request with a
    schema runs, returns or throws, and leaves the engine exactly as the
    same request without one. *)
Theorem performance_mode_skips_schema (c : StrontiumClient) (w : World)
    (requestId method url : string) (body : option JsValue)
    (hdrs : gmap string string) (schema : option Validator)
    (timeoutMs : Z) (options : RequestOptions) (st : Engine) :
  mode (config c) = performance ->
  executeWithRetry c w requestId method url body hdrs schema timeoutMs options st
  = executeWithRetry c w requestId method url body hdrs None timeoutMs options st.
Proof.
  intros Hmode. rewrite !executeWithRetry_loop.
  by rewrite (attemptLoop_performance c w requestId method url body hdrs schema
                timeoutMs options _ Hmode).
Qed.

(** X20.  Deduplication needs a single attempt asked for.  For a client
    built by the constructor, a request deduplicates exactly when the
    configuration does not switch [dedupe] off, the method is GET or HEAD,
    and the configuration's [retry] names a [maxAttempts] of at most 1:
    with the default of three attempts no request deduplicates, although
    [dedupe] defaults to true. *)
Theorem dedupe_needs_single_attempt (w : World) (cfg : StrontiumClientConfig)
    (options : RequestOptions) :
  let c := new_StrontiumClient w cfg in
  (dedupeApplies c options = true
   <-> cfg_dedupe cfg <> Some false
       /\ (o_method options = GET \/ o_method options = HEAD)
       /\ exists r n, cfg_retry cfg = Some r /\ p_maxAttempts r = Some n
                      /\ n <= 1)
  /\ (cfg_retry cfg = None -> dedupeApplies c options = false).
Proof.
  intros c. split.
  - subst c. rewrite dedupeApplies_iff.
    unfold new_StrontiumClient, mergeRetryConfig.
    cbn [config retryConfig dedupe maxAttempts DEFAULT_RETRY_CONFIG].
    split.
    + intros (Hdedupe & Hmethod & Hmax).
      split; [intros Hoff; by rewrite Hoff in Hdedupe|].
      split; [exact Hmethod|].
      destruct (cfg_retry cfg) as [r|]; [|cbn in Hmax; lia].
      cbn in Hmax.
      destruct (p_maxAttempts r) as [n|] eqn:Hn; cbn in Hmax; [|lia].
      by exists r, n.
    + intros (Hdedupe & Hmethod & r & n & -> & Hn & Hle).
      split; [by destruct (cfg_dedupe cfg) as [[]|]|].
      split; [exact Hmethod|].
      cbn. by rewrite Hn.
  - intros Hnone. subst c.
    unfold dedupeApplies, new_StrontiumClient, mergeRetryConfig.
    rewrite Hnone. cbn. by rewrite andb_false_r.
Qed.

End Modes.

(** A 200 that the schema would reject, in performance mode. *)
Lemma performance_mode_skips_schema_witness :
  let w := demoWorld (respondsWith 200 "{wrong:shape}") in
  let cfg : @StrontiumClientConfig demoRuntime :=
    {| cfg_baseURL := "https://api.example.com"; cfg_retry := None;
       cfg_circuitBreaker := None; cfg_timeoutMs := None; cfg_dedupe := None;
       cfg_protocolMode := None; cfg_mode := Some performance;
       cfg_transport := None; cfg_headers := None |} in
  let run := executeWithRetry (new_StrontiumClient w cfg) w "req_1" "GET"
               "https://api.example.com/user" None (∅ : gmap string string)
               (Some rejectingSchema) 30000
               (demoOptions GET "/user" (Some rejectingSchema))
               (new_Engine cfg (∅ : gmap string string)) in
  thrown run = None /\ machine (stateOf run) = SUCCESS.
Proof.
  intros w cfg run. subst run.
  rewrite (performance_mode_skips_schema (new_StrontiumClient w cfg) w "req_1"
             "GET" "https://api.example.com/user" None
             (∅ : gmap string string) (Some rejectingSchema) 30000
             (demoOptions GET "/user" (Some rejectingSchema))
             (new_Engine cfg (∅ : gmap string string)) eq_refl).
  split; by vm_compute.
Defined.
(* --------------------------------------------------------------------- *)
(** ** Rejected transport calls, and the in-flight counter                *)
(* --------------------------------------------------------------------- *)

Section Rejection.
Context `{RT : Runtime}.





End Rejection.


